(** * Order management service: product index, order list, persistence

    A shallow embedding of [src/main.py].

    - Python [int] is [Z]; [str] is [string]; [float] is the kernel's
      binary64 [float], and the builtin [sum] adds from [0] left to right.
    - [ProductModel] instances are objects: an order that was built from
      [node.data] holds the very object the tree node holds.  The object
      store [objects] keeps every instance, and tree nodes and order nodes
      hold references into it.
    - The tree is rebuilt functionally along the path the source mutates;
      the chain of [OrderNode]s is a list from head to tail, and a
      reference to a node of the chain is its position.
    - The two JSON files are the decoded documents they hold, [None] when
      the file does not exist: [json.dump] followed by [json.load] gives
      the same integers, strings and binary64 numbers back.
    - A handler is a function from the state to its response, or the
      [HTTPException] it raises, and the state it leaves.  No statement
      below depends on how [sum] rounds. *)

From stdpp Require Import base option list sorting strings pretty.
From Stdlib Require Import ZArith Floats.PrimFloat.

(** ** Data model (main.py 8-26) *)

Record ProductModel := {
  id : Z;
  name : string;
  price : float;
  description : string
}.

Record OrderInput := {
  in_id : Z;
  in_product_ids : list Z
}.

(** [OrderOutput] is also the shape of [OrderNode.to_dict()]. *)
Record OrderOutput := {
  out_id : Z;
  out_products : list ProductModel;
  out_total : float;
  out_status : string
}.

Record OrderUpdate := {
  upd_status : option string;
  upd_product_ids : option (list Z)
}.

(** ** The object store *)

Definition ref := nat.
Abbreviation heap := (list ProductModel).

#[export] Instance ProductModel_inhabited : Inhabited ProductModel :=
  populate {| id := 0; name := ""; price := 0%float; description := "" |}.

(** ** 1. Binary search tree of products (main.py 31-86) *)

Inductive ProductNode :=
| NoNode
| Node (data : ref) (left right : ProductNode).

Module ProductBST.
Section WithObjects.
Variable h : heap.

(** [node.data.id] *)
Definition key (data : ref) : Z := id (h !!! data).

Fixpoint _insert_recursive (node : ProductNode) (data : ref) : ProductNode :=
  match node with
  | NoNode => NoNode
  | Node d l r =>
      if (key data <? key d)%Z then
        match l with
        | NoNode => Node d (Node data NoNode NoNode) r
        | Node _ _ _ => Node d (_insert_recursive l data) r
        end
      else if (key data >? key d)%Z then
        match r with
        | NoNode => Node d l (Node data NoNode NoNode)
        | Node _ _ _ => Node d l (_insert_recursive r data)
        end
      else Node data l r
  end.

Definition insert (root : ProductNode) (data : ref) : ProductNode :=
  match root with
  | NoNode => Node data NoNode NoNode
  | Node _ _ _ => _insert_recursive root data
  end.

Fixpoint _search_recursive (node : ProductNode) (product_id : Z) : ProductNode :=
  match node with
  | NoNode => NoNode
  | Node d l r =>
      if (key d =? product_id)%Z then node
      else if (product_id <? key d)%Z then _search_recursive l product_id
      else _search_recursive r product_id
  end.

Definition search (root : ProductNode) (product_id : Z) : ProductNode :=
  _search_recursive root product_id.

(** [node.data = updated_info] on the node that [search] returned
    (main.py 238, 250): the write lands at the end of the search path. *)
Fixpoint assign_data (node : ProductNode) (product_id : Z) (updated_info : ref)
  : ProductNode :=
  match node with
  | NoNode => NoNode
  | Node d l r =>
      if (key d =? product_id)%Z then Node updated_info l r
      else if (product_id <? key d)%Z then Node d (assign_data l product_id updated_info) r
      else Node d l (assign_data r product_id updated_info)
  end.

Fixpoint _in_order_traversal (node : ProductNode) (products : list ProductModel)
  : list ProductModel :=
  match node with
  | NoNode => products
  | Node d l r =>
      _in_order_traversal r (_in_order_traversal l products ++ [h !!! d])
  end.

Definition serialize (root : ProductNode) : list ProductModel :=
  _in_order_traversal root [].
End WithObjects.
End ProductBST.

(** ** 2. Linked list of orders (main.py 89-163) *)

Record OrderNode := {
  node_id : Z;
  node_products : list ref;
  node_total : float;
  node_status : string
}.

#[export] Instance OrderNode_inhabited : Inhabited OrderNode :=
  populate {| node_id := 0; node_products := []; node_total := 0%float;
              node_status := "" |}.

Definition set_status (new_status : string) (node : OrderNode) : OrderNode :=
  {| node_id := node_id node; node_products := node_products node;
     node_total := node_total node; node_status := new_status |}.

Definition set_products (new_products : list ref) (total : float) (node : OrderNode)
  : OrderNode :=
  {| node_id := node_id node; node_products := new_products;
     node_total := total; node_status := node_status node |}.

(** Truth value of a [str] and of a [list]: non-empty. *)
Definition truthy_str (s : string) : bool :=
  match s with EmptyString => false | String _ _ => true end.

Definition truthy_list {A} (l : list A) : bool :=
  match l with [] => false | _ :: _ => true end.

Module OrderLinkedList.
Section WithObjects.
Variable h : heap.

(** [sum(p.price for p in products)] *)
Definition sum_prices (products : list ref) : float :=
  foldl (λ acc p, acc + price (h !!! p))%float 0%float products.

Definition to_dict (node : OrderNode) : OrderOutput :=
  {| out_id := node_id node;
     out_products := (λ p, h !!! p) <$> node_products node;
     out_total := node_total node;
     out_status := node_status node |}.

(** Appends at the tail and returns the new node (its position). *)
Definition create_order (chain : list OrderNode) (order_id : Z) (products : list ref)
  : list OrderNode * nat :=
  let total_price := sum_prices products in
  let new_node := {| node_id := order_id; node_products := products;
                     node_total := total_price; node_status := "pending" |} in
  (chain ++ [new_node], length chain).

Fixpoint find_order (chain : list OrderNode) (order_id : Z) : option nat :=
  match chain with
  | [] => None
  | current :: next =>
      if (node_id current =? order_id)%Z then Some 0
      else S <$> find_order next order_id
  end.

Definition update_order (chain : list OrderNode) (order_id : Z)
    (new_status : option string) (new_products : option (list ref))
  : list OrderNode * option nat :=
  match find_order chain order_id with
  | Some node =>
      let chain1 :=
        match new_status with
        | Some s => if truthy_str s then alter (set_status s) node chain else chain
        | None => chain
        end in
      let chain2 :=
        match new_products with
        | Some ps =>
            if truthy_list ps
            then alter (set_products ps (sum_prices ps)) node chain1
            else chain1
        | None => chain1
        end in
      (chain2, Some node)
  | None => (chain, None)
  end.

Fixpoint delete_order (chain : list OrderNode) (order_id : Z)
  : list OrderNode * bool :=
  match chain with
  | [] => ([], false)
  | current :: next =>
      if (node_id current =? order_id)%Z then (next, true)
      else let '(rest, found) := delete_order next order_id in
           (current :: rest, found)
  end.

Definition list_all (chain : list OrderNode) : list OrderOutput :=
  to_dict <$> chain.
End WithObjects.
End OrderLinkedList.

(** ** Persistence (main.py 167-202) *)

Record State := {
  objects : heap;
  product_tree : ProductNode;
  order_list : list OrderNode;
  products_json : option (list ProductModel);   (* PRODUCT_FILE *)
  orders_json : option (list OrderOutput)       (* ORDER_FILE *)
}.

Definition with_products (h : heap) (root : ProductNode) (s : State) : State :=
  {| objects := h; product_tree := root; order_list := order_list s;
     products_json := products_json s; orders_json := orders_json s |}.

Definition with_orders (h : heap) (chain : list OrderNode) (s : State) : State :=
  {| objects := h; product_tree := product_tree s; order_list := chain;
     products_json := products_json s; orders_json := orders_json s |}.

Definition save_data (s : State) : State :=
  {| objects := objects s; product_tree := product_tree s;
     order_list := order_list s;
     products_json := Some (ProductBST.serialize (objects s) (product_tree s));
     orders_json := Some (OrderLinkedList.list_all (objects s) (order_list s)) |}.

(** [product_tree.insert(ProductModel( **p_data))]: the new instance goes to
    the object store and the tree links it. *)
Definition load_product (s : State) (p_data : ProductModel) : State :=
  let data := length (objects s) in
  let h := objects s ++ [p_data] in
  with_products h (ProductBST.insert h (product_tree s) data) s.

(** One persisted order: new instances for its products, [create_order],
    then the status is written on the node that was returned. *)
Definition load_order (s : State) (o_data : OrderOutput) : State :=
  let products := seq (length (objects s)) (length (out_products o_data)) in
  let h := objects s ++ out_products o_data in
  let '(chain, node) :=
    OrderLinkedList.create_order h (order_list s) (out_id o_data) products in
  with_orders h (alter (set_status (out_status o_data)) node chain) s.

Definition load_data (s : State) : State :=
  let s1 := match products_json s with
            | Some data => foldl load_product s data
            | None => s
            end in
  match orders_json s1 with
  | Some data => foldl load_order s1 data
  | None => s1
  end.

(** ** Request handlers (main.py 206-316) *)

Record HTTPException := { status_code : Z; detail : string }.

Inductive Result (A : Type) :=
| Ok (a : A)
| Raise (e : HTTPException).
Arguments Ok {A} a.
Arguments Raise {A} e.

(** The spec's error kinds as the handlers raise them: NotFound is 404;
    Conflict and InvalidArgument are both 400. *)
Definition NotFound (msg : string) : HTTPException :=
  {| status_code := 404; detail := msg |}.
Definition Conflict (msg : string) : HTTPException :=
  {| status_code := 400; detail := msg |}.
Definition InvalidArgument (msg : string) : HTTPException :=
  {| status_code := 400; detail := msg |}.

Definition create_product (product : ProductModel) (s : State)
  : Result ProductModel * State :=
  match ProductBST.search (objects s) (product_tree s) (id product) with
  | Node _ _ _ => (Raise (Conflict "Producto con ese ID ya existe"), s)
  | NoNode =>
      let data := length (objects s) in
      let h := objects s ++ [product] in
      let s1 := with_products h (ProductBST.insert h (product_tree s) data) s in
      (Ok (h !!! data), save_data s1)
  end.

Definition get_product (product_id : Z) (s : State) : Result ProductModel * State :=
  match ProductBST.search (objects s) (product_tree s) product_id with
  | NoNode => (Raise (NotFound "Producto no encontrado"), s)
  | Node data _ _ => (Ok (objects s !!! data), s)
  end.

Definition update_product (product_id : Z) (updated_info : ProductModel) (s : State)
  : Result (string * ProductModel) * State :=
  match ProductBST.search (objects s) (product_tree s) product_id with
  | NoNode => (Raise (NotFound "Producto no encontrado"), s)
  | Node _ _ _ =>
      if negb (id updated_info =? product_id)%Z
      then (Raise (InvalidArgument "No se permite cambiar el ID del producto"), s)
      else
        let data := length (objects s) in
        let h := objects s ++ [updated_info] in
        let root :=
          ProductBST.assign_data (objects s) (product_tree s) product_id data in
        let s1 := with_products h root s in
        (Ok ("Producto actualizado correctamente", h !!! data), save_data s1)
  end.

(** The lookup loop of both order handlers (main.py 266-271, 291-296). *)
Fixpoint find_products (h : heap) (root : ProductNode) (product_ids : list Z)
    (products_found : list ref) : Result (list ref) :=
  match product_ids with
  | [] => Ok products_found
  | pid :: rest =>
      match ProductBST.search h root pid with
      | NoNode =>
          Raise (NotFound ("Producto ID " +:+ pretty pid +:+ " no encontrado"))
      | Node data _ _ => find_products h root rest (products_found ++ [data])
      end
  end.

Definition create_order (order : OrderInput) (s : State)
  : Result OrderOutput * State :=
  match OrderLinkedList.find_order (order_list s) (in_id order) with
  | Some _ => (Raise (Conflict "ID de pedido ya existe"), s)
  | None =>
      match find_products (objects s) (product_tree s) (in_product_ids order) [] with
      | Raise e => (Raise e, s)
      | Ok products_found =>
          let '(chain, new_order_node) :=
            OrderLinkedList.create_order (objects s) (order_list s) (in_id order)
              products_found in
          let s1 := with_orders (objects s) chain s in
          (Ok (OrderLinkedList.to_dict (objects s) (chain !!! new_order_node)),
           save_data s1)
      end
  end.

Definition get_order (order_id : Z) (s : State) : Result OrderOutput * State :=
  match OrderLinkedList.find_order (order_list s) order_id with
  | None => (Raise (NotFound "Pedido no encontrado"), s)
  | Some node =>
      (Ok (OrderLinkedList.to_dict (objects s) (order_list s !!! node)), s)
  end.

Definition update_order (order_id : Z) (update : OrderUpdate) (s : State)
  : Result OrderOutput * State :=
  let lookup :=
    match upd_product_ids update with
    | Some product_ids =>
        if truthy_list product_ids then
          match find_products (objects s) (product_tree s) product_ids [] with
          | Raise e => Raise e
          | Ok products_found => Ok (Some products_found)
          end
        else Ok None
    | None => Ok None
    end in
  match lookup with
  | Raise e => (Raise e, s)
  | Ok products_found =>
      let '(chain, node) :=
        OrderLinkedList.update_order (objects s) (order_list s) order_id
          (upd_status update) products_found in
      let s1 := with_orders (objects s) chain s in
      match node with
      | None => (Raise (NotFound "Pedido no encontrado"), s1)
      | Some node =>
          (Ok (OrderLinkedList.to_dict (objects s) (chain !!! node)), save_data s1)
      end
  end.

Definition delete_order (order_id : Z) (s : State) : Result string * State :=
  let '(chain, success) := OrderLinkedList.delete_order (order_list s) order_id in
  let s1 := with_orders (objects s) chain s in
  if success then (Ok "Pedido eliminado correctamente", save_data s1)
  else (Raise (NotFound "Pedido no encontrado"), s1).

Definition list_orders (s : State) : Result (list OrderOutput) * State :=
  (Ok (OrderLinkedList.list_all (objects s) (order_list s)), s).

(** ** Runs of the service *)

Inductive Request :=
| CreateProduct (product : ProductModel)
| GetProduct (product_id : Z)
| UpdateProduct (product_id : Z) (updated_info : ProductModel)
| CreateOrder (order : OrderInput)
| GetOrder (order_id : Z)
| UpdateOrder (order_id : Z) (update : OrderUpdate)
| DeleteOrder (order_id : Z)
| ListOrders.

Definition handle (req : Request) (s : State) : State :=
  match req with
  | CreateProduct product => (create_product product s).2
  | GetProduct product_id => (get_product product_id s).2
  | UpdateProduct product_id updated_info => (update_product product_id updated_info s).2
  | CreateOrder order => (create_order order s).2
  | GetOrder order_id => (get_order order_id s).2
  | UpdateOrder order_id update => (update_order order_id update s).2
  | DeleteOrder order_id => (delete_order order_id s).2
  | ListOrders => (list_orders s).2
  end.

(** A new process: empty stores, then [startup_event] loads what the two
    files hold. *)
Definition fresh (products : option (list ProductModel))
    (orders : option (list OrderOutput)) : State :=
  {| objects := []; product_tree := NoNode; order_list := [];
     products_json := products; orders_json := orders |}.

Definition startup (products : option (list ProductModel))
    (orders : option (list OrderOutput)) : State :=
  load_data (fresh products orders).

Inductive reachable : State → Prop :=
| reachable_startup products orders : reachable (startup products orders)
| reachable_request s req : reachable s → reachable (handle req s).

(** The runs of a service that was first started without files and whose
    files only its own [save_data] has written since. *)
Inductive own_run : State → Prop :=
| own_first_start : own_run (startup None None)
| own_request s req : own_run s → own_run (handle req s)
| own_next_start s :
    own_run s → own_run (startup (products_json s) (orders_json s)).

(** ** Notions the statements use *)

(** The references a tree holds, left to right. *)
Fixpoint inorder (t : ProductNode) : list ref :=
  match t with
  | NoNode => []
  | Node d l r => inorder l ++ d :: inorder r
  end.

(** Strictly ascending ids. *)
Definition ascending (l : list ProductModel) : Prop :=
  StronglySorted (λ p q, (id p < id q)%Z) l.

(** Insert-or-overwrite in a list ordered by id: the ordered map that the
    tree stands for. *)
Fixpoint upsert (p : ProductModel) (l : list ProductModel) : list ProductModel :=
  match l with
  | [] => [p]
  | q :: l' =>
      if (id p <? id q)%Z then p :: q :: l'
      else if (id p >? id q)%Z then q :: upsert p l'
      else p :: l'
  end.

Definition has_id (k : Z) (p : ProductModel) : bool := (id p =? k)%Z.

(** The entry of [l] with id [k], and the last of a sequence of inserts
    with id [k]. *)
Definition entry_of (k : Z) (l : list ProductModel) : option ProductModel :=
  List.find (has_id k) l.

Definition last_insert (k : Z) (inserts : list ProductModel) : option ProductModel :=
  List.find (has_id k) (reverse inserts).

Definition refs_valid (h : heap) (refs : list ref) : Prop :=
  Forall (λ r, r < length h) refs.

(** The sum of the prices of product documents, as [sum] adds them. *)
Definition sum_values (vs : list ProductModel) : float :=
  foldl (λ acc p, acc + price p)%float 0%float vs.

(** A tree is well formed in a store when its references point into the
    store and its in-order traversal is ascending (a search tree). *)
Definition tree_ok (h : heap) (t : ProductNode) : Prop :=
  refs_valid h (inorder t) ∧ ascending (ProductBST.serialize h t).

(** An order node is well formed when its references point into the store
    and its total is the sum of the prices of its products. *)
Definition node_ok (h : heap) (n : OrderNode) : Prop :=
  refs_valid h (node_products n) ∧
  node_total n = OrderLinkedList.sum_prices h (node_products n).

(** What every state of a run satisfies. *)
Definition invariant (s : State) : Prop :=
  tree_ok (objects s) (product_tree s) ∧
  Forall (node_ok (objects s)) (order_list s).

(** A persisted order as [load_data] rebuilds it: the total is summed
    again from the products, whatever the file says. *)
Definition recomputed (o : OrderOutput) : OrderOutput :=
  {| out_id := out_id o; out_products := out_products o;
     out_total := sum_values (out_products o); out_status := out_status o |}.

(** [update_product] on the documents: the entry with the id is replaced. *)
Definition replace_entry (k : Z) (p : ProductModel) (l : list ProductModel)
  : list ProductModel :=
  (λ q, if has_id k q then p else q) <$> l.

(** Textbook insertion, which [ProductBST.insert] comes to: the source
    tests a child for [None] before it descends into it. *)
Fixpoint ins (h : heap) (t : ProductNode) (d : ref) : ProductNode :=
  match t with
  | NoNode => Node d NoNode NoNode
  | Node d0 l r =>
      if (ProductBST.key h d <? ProductBST.key h d0)%Z then Node d0 (ins h l d) r
      else if (ProductBST.key h d >? ProductBST.key h d0)%Z then Node d0 l (ins h r d)
      else Node d l r
  end.

(** What [save_data] writes for a state. *)
Definition products_of (s : State) : list ProductModel :=
  ProductBST.serialize (objects s) (product_tree s).

Definition orders_of (s : State) : list OrderOutput :=
  OrderLinkedList.list_all (objects s) (order_list s).

Definition order_ids (chain : list OrderNode) : list Z := node_id <$> chain.

(** No order id twice, in the list and in the orders file. *)
Definition ids_unique (s : State) : Prop :=
  NoDup (order_ids (order_list s)) ∧
  match orders_json s with
  | None => True
  | Some orders => NoDup (out_id <$> orders)
  end.

(** C6 as stated, for an update with only a product list: whatever the
    list, the order gets the resolved products and their sum, and keeps
    its status. *)
Definition products_only_update_claim (s : State) (order_id : Z) (ids : list Z)
  : Prop :=
  ∀ node found,
    OrderLinkedList.find_order (order_list s) order_id = Some node →
    find_products (objects s) (product_tree s) ids [] = Ok found →
    let s' := (update_order order_id
                 {| upd_status := None; upd_product_ids := Some ids |} s).2 in
    node_status (order_list s' !!! node) = node_status (order_list s !!! node) ∧
    node_products (order_list s' !!! node) = found ∧
    node_total (order_list s' !!! node) = OrderLinkedList.sum_prices (objects s') found.

(** ** A small run, for the examples *)

Definition keyboard : ProductModel :=
  {| id := 2; name := "Teclado"; price := 10.5%float; description := "USB" |}.

Definition mouse : ProductModel :=
  {| id := 1; name := "Raton"; price := 5.25%float; description := "Optico" |}.

(** Two products, then order 7 for both of them. *)
Definition shop : State :=
  handle (CreateOrder {| in_id := 7; in_product_ids := [2; 1]%Z |})
    (handle (CreateProduct mouse)
       (handle (CreateProduct keyboard) (startup None None))).

(** ** The product index *)

Section TreeFacts.
Variable h : heap.
Implicit Types (t : ProductNode) (d : ref) (p q : ProductModel).

Lemma in_order_traversal_app t acc :
  ProductBST._in_order_traversal h t acc = acc ++ ((λ r, h !!! r) <$> inorder t).
Proof.
  revert acc. induction t as [|d l IHl r IHr]; intros acc; simpl.
  - by rewrite app_nil_r.
  - rewrite IHr, IHl, fmap_app, <-!app_assoc. done.
Qed.

Lemma serialize_inorder t :
  ProductBST.serialize h t = (λ r, h !!! r) <$> inorder t.
Proof. unfold ProductBST.serialize. by rewrite in_order_traversal_app. Qed.

Lemma serialize_node d l r :
  ProductBST.serialize h (Node d l r) =
  ProductBST.serialize h l ++ h !!! d :: ProductBST.serialize h r.
Proof. rewrite !serialize_inorder. simpl. by rewrite fmap_app. Qed.

Lemma insert_recursive_ins t d :
  match t with
  | NoNode => True
  | Node _ _ _ => ProductBST._insert_recursive h t d = ins h t d
  end.
Proof.
  induction t as [|d0 l IHl r IHr]; [done|]. simpl.
  destruct (_ <? _)%Z.
  - destruct l; [done|]. by rewrite IHl.
  - destruct (_ >? _)%Z; [|done]. destruct r; [done|]. by rewrite IHr.
Qed.

Lemma insert_ins t d : ProductBST.insert h t d = ins h t d.
Proof. destruct t; [done|]. apply (insert_recursive_ins (Node _ _ _)). Qed.
End TreeFacts.

Section UpsertFacts.
Implicit Types (p q a : ProductModel) (l xs ys : list ProductModel).

Lemma upsert_app_lt p xs a ys :
  (id p < id a)%Z → upsert p (xs ++ a :: ys) = upsert p xs ++ a :: ys.
Proof.
  intros Hlt. induction xs as [|x xs IH]; simpl.
  - by rewrite (proj2 (Z.ltb_lt _ _) Hlt).
  - repeat case_match; try done. by rewrite IH.
Qed.

Lemma upsert_app_gt p xs a ys :
  Forall (λ x, (id x < id p)%Z) xs → (id a < id p)%Z →
  upsert p (xs ++ a :: ys) = xs ++ a :: upsert p ys.
Proof.
  intros Hxs Hlt. induction Hxs as [|x xs Hx _ IH]; simpl.
  - destruct (Z.ltb_spec (id p) (id a)); [lia|].
    destruct (Z.gtb_spec (id p) (id a)); [done|lia].
  - destruct (Z.ltb_spec (id p) (id x)); [lia|].
    destruct (Z.gtb_spec (id p) (id x)); [|lia]. by rewrite IH.
Qed.

Lemma upsert_app_eq p xs a ys :
  Forall (λ x, (id x < id p)%Z) xs → id p = id a →
  upsert p (xs ++ a :: ys) = xs ++ p :: ys.
Proof.
  intros Hxs Heq. induction Hxs as [|x xs Hx _ IH]; simpl.
  - destruct (Z.ltb_spec (id p) (id a)); [lia|].
    destruct (Z.gtb_spec (id p) (id a)); [lia|done].
  - destruct (Z.ltb_spec (id p) (id x)); [lia|].
    destruct (Z.gtb_spec (id p) (id x)); [|lia]. by rewrite IH.
Qed.

Lemma upsert_last p l :
  Forall (λ x, (id x < id p)%Z) l → upsert p l = l ++ [p].
Proof.
  induction 1 as [|x xs Hx _ IH]; simpl; [done|].
  destruct (Z.ltb_spec (id p) (id x)); [lia|].
  destruct (Z.gtb_spec (id p) (id x)); [|lia]. by rewrite IH.
Qed.

Lemma Forall_upsert (P : ProductModel → Prop) p l :
  P p → Forall P l → Forall P (upsert p l).
Proof.
  intros Hp. induction 1 as [|x xs Hx Hxs IH]; simpl.
  - by constructor.
  - repeat case_match; repeat constructor; done.
Qed.

Lemma upsert_ascending p l : ascending l → ascending (upsert p l).
Proof.
  unfold ascending. induction 1 as [|q l Hl IH Hq]; simpl.
  - repeat constructor.
  - destruct (Z.ltb_spec (id p) (id q)).
    + constructor; [by constructor|]. constructor; [done|].
      eapply Forall_impl; [exact Hq|]. simpl. lia.
    + destruct (Z.gtb_spec (id p) (id q)).
      * constructor; [done|]. apply Forall_upsert; [lia|done].
      * constructor; [done|]. eapply Forall_impl; [exact Hq|]. simpl. lia.
Qed.

Lemma entry_of_upsert k p l :
  entry_of k (upsert p l) = if has_id k p then Some p else entry_of k l.
Proof.
  unfold entry_of, has_id. induction l as [|q l IH]; simpl; [done|].
  destruct (Z.ltb_spec (id p) (id q)); simpl; [done|].
  destruct (Z.gtb_spec (id p) (id q)); simpl.
  - rewrite IH. destruct (Z.eqb_spec (id q) k), (Z.eqb_spec (id p) k); (done || lia).
  - destruct (Z.eqb_spec (id q) k), (Z.eqb_spec (id p) k); (done || lia).
Qed.

Lemma last_insert_snoc k inserts p :
  last_insert k (inserts ++ [p]) = if has_id k p then Some p else last_insert k inserts.
Proof. unfold last_insert. by rewrite reverse_snoc. Qed.

Lemma ascending_snoc l p :
  ascending (l ++ [p]) → ascending l ∧ Forall (λ x, (id x < id p)%Z) l.
Proof.
  unfold ascending. rewrite StronglySorted_app. intros (Hlt & Hl & _).
  split; [done|]. apply Forall_forall. intros x Hx.
  apply Hlt; [done|]. apply list_elem_of_singleton. done.
Qed.

(** Replaying an ascending list through [upsert] gives the list back. *)
Lemma foldl_upsert_ascending l :
  ascending l → foldl (λ acc p, upsert p acc) [] l = l.
Proof.
  induction l as [|p l IH] using rev_ind; [done|].
  intros [Hl Hp]%ascending_snoc. rewrite foldl_snoc, IH by done.
  by apply upsert_last.
Qed.

Lemma ascending_NoDup l : ascending l → NoDup (id <$> l).
Proof.
  unfold ascending. induction 1 as [|q l Hl IH Hq]; simpl; constructor; [|done].
  intros (x & Hid & Hx)%list_elem_of_fmap.
  rewrite Forall_forall in Hq. specialize (Hq x Hx). lia.
Qed.
End UpsertFacts.

Section InsertFacts.
Implicit Types (h : heap) (t : ProductNode) (d : ref).

Lemma ascending_node h d l r :
  ascending (ProductBST.serialize h (Node d l r)) →
  ascending (ProductBST.serialize h l) ∧ ascending (ProductBST.serialize h r) ∧
  Forall (λ x, (id x < id (h !!! d))%Z) (ProductBST.serialize h l).
Proof.
  rewrite serialize_node. unfold ascending.
  rewrite StronglySorted_app, StronglySorted_cons. intros (Hlt & Hl & _ & Hr).
  repeat split; try done. apply Forall_forall. intros x Hx.
  apply Hlt; [done|]. apply list_elem_of_here.
Qed.

(** Insertion in the tree is [upsert] on what [serialize] returns. *)
Lemma serialize_ins h t d :
  ascending (ProductBST.serialize h t) →
  ProductBST.serialize h (ins h t d) = upsert (h !!! d) (ProductBST.serialize h t).
Proof.
  induction t as [|d0 l IHl r IHr]; [done|].
  intros Hasc. destruct (ascending_node _ _ _ _ Hasc) as (Hl & Hr & Hlt).
  simpl. unfold ProductBST.key.
  destruct (Z.ltb_spec (id (h !!! d)) (id (h !!! d0))).
  - rewrite !serialize_node, IHl by done. by rewrite upsert_app_lt.
  - destruct (Z.gtb_spec (id (h !!! d)) (id (h !!! d0))).
    + rewrite !serialize_node, IHr by done. rewrite upsert_app_gt; [done| |lia].
      eapply Forall_impl; [exact Hlt|]. simpl. lia.
    + rewrite !serialize_node. rewrite upsert_app_eq; [done| |lia].
      eapply Forall_impl; [exact Hlt|]. simpl. lia.
Qed.

Lemma inorder_ins (P : ref → Prop) h t d :
  P d → Forall P (inorder t) → Forall P (inorder (ins h t d)).
Proof.
  intros Hd. induction t as [|d0 l IHl r IHr]; simpl.
  - by repeat constructor.
  - rewrite Forall_app, Forall_cons. intros (Hl & Hd0 & Hr).
    repeat case_match; simpl; rewrite Forall_app, Forall_cons; auto.
Qed.

(** Objects are never written: a longer store reads the same at every
    valid reference. *)
Lemma deref_app h h2 refs :
  refs_valid h refs →
  (λ r, (h ++ h2) !!! r) <$> refs = (λ r, h !!! r) <$> refs.
Proof.
  intros Hv. apply Forall_fmap_ext. eapply Forall_impl; [exact Hv|].
  simpl. intros r Hr. by apply lookup_total_app_l.
Qed.

Lemma refs_valid_app h h2 refs : refs_valid h refs → refs_valid (h ++ h2) refs.
Proof.
  intros Hv. eapply Forall_impl; [exact Hv|].
  simpl. intros r Hr. rewrite length_app. lia.
Qed.

Lemma serialize_app h h2 t :
  refs_valid h (inorder t) →
  ProductBST.serialize (h ++ h2) t = ProductBST.serialize h t.
Proof. intros Hv. rewrite !serialize_inorder. by apply deref_app. Qed.

Lemma load_product_serialize s p :
  refs_valid (objects s) (inorder (product_tree s)) →
  ascending (products_of s) →
  products_of (load_product s p) = upsert p (products_of s).
Proof.
  intros Hv Hasc. unfold products_of, load_product. simpl.
  rewrite insert_ins, serialize_ins.
  - rewrite serialize_app by done. f_equal.
    by rewrite lookup_total_app_r, Nat.sub_diag.
  - by rewrite serialize_app.
Qed.

Lemma load_product_refs s p :
  refs_valid (objects s) (inorder (product_tree s)) →
  refs_valid (objects (load_product s p)) (inorder (product_tree (load_product s p))).
Proof.
  intros Hv. unfold load_product. simpl. rewrite insert_ins.
  apply inorder_ins.
  - rewrite length_app. simpl. lia.
  - by apply refs_valid_app.
Qed.

Lemma load_products_serialize inserts s :
  refs_valid (objects s) (inorder (product_tree s)) →
  ascending (products_of s) →
  let s' := foldl load_product s inserts in
  refs_valid (objects s') (inorder (product_tree s')) ∧
  ascending (products_of s') ∧
  products_of s' = foldl (λ acc p, upsert p acc) (products_of s) inserts.
Proof.
  revert s. induction inserts as [|p inserts IH]; intros s Hv Hasc; simpl; [done|].
  pose proof (load_product_serialize s p Hv Hasc) as Hser.
  destruct (IH (load_product s p)) as (Hv' & Hasc' & Hser').
  - by apply load_product_refs.
  - rewrite Hser. by apply upsert_ascending.
  - repeat split; try done. by rewrite Hser', Hser.
Qed.

Lemma foldl_upsert_entry k inserts :
  entry_of k (foldl (λ acc p, upsert p acc) [] inserts) = last_insert k inserts.
Proof.
  induction inserts as [|p inserts IH] using rev_ind; [done|].
  by rewrite foldl_snoc, entry_of_upsert, last_insert_snoc, IH.
Qed.
End InsertFacts.

(** The same from any well-formed state: an id that no insert names keeps
    the entry it had. *)
Lemma serialize_after_inserts_from (s : State) (inserts : list ProductModel) (k : Z) :
  invariant s →
  ascending (products_of (foldl load_product s inserts)) ∧
  entry_of k (products_of (foldl load_product s inserts))
    = match last_insert k inserts with
      | Some p => Some p
      | None => entry_of k (products_of s)
      end.
Proof.
  intros [[Hv Hasc] _].
  destruct (load_products_serialize inserts s Hv Hasc) as (_ & Hasc' & Hser).
  split; [exact Hasc'|]. rewrite Hser. clear. induction inserts as [|p inserts IH] using rev_ind; [done|].
  rewrite foldl_snoc, entry_of_upsert, last_insert_snoc, IH.
  by destruct (has_id k p).
Qed.

(** C1. Whatever products are inserted into an empty index, in whatever
    order and with whatever repeated ids, [serialize] returns them in
    strictly ascending id order, with no id twice, and the entry under each
    id is the last insert with that id. *)
Theorem serialize_after_inserts (inserts : list ProductModel) (k : Z) :
  ascending (products_of (foldl load_product (fresh None None) inserts)) ∧
  NoDup (id <$> products_of (foldl load_product (fresh None None) inserts)) ∧
  entry_of k (products_of (foldl load_product (fresh None None) inserts))
    = last_insert k inserts.
Proof.
  destruct (load_products_serialize inserts (fresh None None)) as (_ & Hasc & Hser).
  - constructor.
  - constructor.
  - split; [done|]. split; [by apply ascending_NoDup|].
    rewrite Hser. apply foldl_upsert_entry.
Qed.

(** ** Objects are read-only: extending the store *)

Section StoreFacts.
Implicit Types (h : heap) (t : ProductNode) (n : OrderNode).

Lemma sum_prices_values h refs :
  OrderLinkedList.sum_prices h refs = sum_values ((λ r, h !!! r) <$> refs).
Proof. unfold OrderLinkedList.sum_prices, sum_values. by rewrite foldl_fmap. Qed.

Lemma sum_prices_app h h2 refs :
  refs_valid h refs →
  OrderLinkedList.sum_prices (h ++ h2) refs = OrderLinkedList.sum_prices h refs.
Proof. intros Hv. by rewrite !sum_prices_values, deref_app. Qed.

Lemma to_dict_app h h2 n :
  refs_valid h (node_products n) →
  OrderLinkedList.to_dict (h ++ h2) n = OrderLinkedList.to_dict h n.
Proof. intros Hv. unfold OrderLinkedList.to_dict. by rewrite deref_app. Qed.

Lemma node_ok_app h h2 n : node_ok h n → node_ok (h ++ h2) n.
Proof.
  intros [Hv Ht]. split; [by apply refs_valid_app|].
  by rewrite sum_prices_app.
Qed.

Lemma nodes_ok_app h h2 chain :
  Forall (node_ok h) chain → Forall (node_ok (h ++ h2)) chain.
Proof.
  intros Hok. eapply Forall_impl; [exact Hok|]. intros n. apply node_ok_app.
Qed.

Lemma list_all_app h h2 chain :
  Forall (node_ok h) chain →
  OrderLinkedList.list_all (h ++ h2) chain = OrderLinkedList.list_all h chain.
Proof.
  intros Hok. unfold OrderLinkedList.list_all. apply Forall_fmap_ext.
  eapply Forall_impl; [exact Hok|]. intros n [Hv _]. by apply to_dict_app.
Qed.

Lemma tree_ok_app h h2 t : tree_ok h t → tree_ok (h ++ h2) t.
Proof.
  intros [Hv Hasc]. split; [by apply refs_valid_app|].
  by rewrite serialize_app.
Qed.

(** Fresh instances of the documents [vs], stored after [h]. *)
Lemma deref_fresh h vs :
  (λ r, (h ++ vs) !!! r) <$> seq (length h) (length vs) = vs.
Proof.
  revert h. induction vs as [|v vs IH]; intros h; simpl; [done|]. f_equal.
  - by rewrite list_lookup_total_middle.
  - specialize (IH (h ++ [v])). rewrite length_app, <-app_assoc in IH. simpl in IH.
    by rewrite Nat.add_1_r in IH.
Qed.

Lemma refs_valid_fresh h vs : refs_valid (h ++ vs) (seq (length h) (length vs)).
Proof.
  apply Forall_seq. intros r Hr. rewrite length_app. lia.
Qed.
End StoreFacts.

(** ** Search and update in the product index *)

Section SearchFacts.
Implicit Types (h : heap) (t : ProductNode) (d : ref).

Lemma ascending_node_r h d l r :
  ascending (ProductBST.serialize h (Node d l r)) →
  Forall (λ x, (id (h !!! d) < id x)%Z) (ProductBST.serialize h r).
Proof.
  rewrite serialize_node. unfold ascending.
  rewrite StronglySorted_app, StronglySorted_cons. by intros (_ & _ & Hr & _).
Qed.

Lemma entry_of_app k (l1 l2 : list ProductModel) :
  entry_of k (l1 ++ l2) =
  match entry_of k l1 with Some p => Some p | None => entry_of k l2 end.
Proof.
  unfold entry_of. induction l1 as [|x l1 IH]; simpl; [done|].
  by destruct (has_id k x).
Qed.

Lemma entry_of_none k (l : list ProductModel) : Forall (λ x, id x ≠ k) l → entry_of k l = None.
Proof.
  unfold entry_of, has_id. induction 1 as [|x l Hx _ IH]; simpl; [done|].
  by destruct (Z.eqb_spec (id x) k).
Qed.

Lemma entry_of_Some k (l : list ProductModel) p : entry_of k l = Some p → p ∈ l ∧ id p = k.
Proof.
  unfold entry_of, has_id. intros [Hin Hid]%find_some.
  split; [by apply list_elem_of_In|]. by apply Z.eqb_eq.
Qed.

Lemma entry_of_None k (l : list ProductModel) : entry_of k l = None → k ∉ (id <$> l).
Proof.
  unfold entry_of, has_id. intros Hnone (x & -> & Hx)%list_elem_of_fmap.
  apply list_elem_of_In in Hx.
  pose proof (find_none _ _ Hnone x Hx) as Hf. simpl in Hf.
  by rewrite Z.eqb_refl in Hf.
Qed.

Lemma replace_entry_none k p (l : list ProductModel) :
  Forall (λ x, id x ≠ k) l → replace_entry k p l = l.
Proof.
  unfold replace_entry, has_id. induction 1 as [|x l Hx _ IH]; simpl; [done|].
  destruct (Z.eqb_spec (id x) k); [done|]. by f_equal.
Qed.

Lemma replace_entry_ids k p (l : list ProductModel) :
  id p = k → id <$> replace_entry k p l = id <$> l.
Proof.
  intros Hp. unfold replace_entry, has_id. rewrite <-list_fmap_compose.
  apply list_fmap_ext. intros i x _. simpl.
  destruct (Z.eqb_spec (id x) k); congruence.
Qed.

Lemma ascending_ids (l1 l2 : list ProductModel) :
  id <$> l1 = id <$> l2 → ascending l1 → ascending l2.
Proof.
  unfold ascending. intros Hids Hasc. revert l2 Hids.
  induction Hasc as [|x l1 _ IH Hx]; intros [|y l2] Hids; try discriminate.
  - constructor.
  - injection Hids as Hxy Hrest. change (id <$> l1 = id <$> l2) in Hrest.
    constructor; [by apply IH|].
    apply Forall_forall. intros z Hz.
    assert (id z ∈ id <$> l1) as (w & Hw & Hin)%list_elem_of_fmap.
    { rewrite Hrest. apply list_elem_of_fmap. eauto. }
    rewrite Forall_forall in Hx. specialize (Hx w Hin). lia.
Qed.

(** What [search] returns, in terms of the documents [serialize] lists. *)
Lemma search_entry h t k :
  ascending (ProductBST.serialize h t) →
  match ProductBST.search h t k with
  | NoNode => entry_of k (ProductBST.serialize h t) = None
  | Node d _ _ =>
      d ∈ inorder t ∧ entry_of k (ProductBST.serialize h t) = Some (h !!! d)
  end.
Proof.
  unfold ProductBST.search.
  induction t as [|d0 l IHl r IHr]; [done|]. intros Hasc.
  destruct (ascending_node _ _ _ _ Hasc) as (Hl & Hr & Hlt).
  pose proof (ascending_node_r _ _ _ _ Hasc) as Hgt.
  rewrite serialize_node, entry_of_app.
  cbn [ProductBST._search_recursive]. unfold ProductBST.key.
  destruct (Z.eqb_spec (id (h !!! d0)) k) as [Heq|Hne].
  - split; [apply elem_of_app; right; apply elem_of_cons; by left|].
    rewrite entry_of_none.
    + unfold entry_of, has_id. simpl. by rewrite (proj2 (Z.eqb_eq _ _) Heq).
    + eapply Forall_impl; [exact Hlt|]. simpl. lia.
  - assert (entry_of k (h !!! d0 :: ProductBST.serialize h r)
            = entry_of k (ProductBST.serialize h r)) as Hskip.
    { unfold entry_of, has_id. simpl. by destruct (Z.eqb_spec (id (h !!! d0)) k). }
    rewrite Hskip. destruct (Z.ltb_spec k (id (h !!! d0))).
    + specialize (IHl Hl).
      assert (entry_of k (ProductBST.serialize h r) = None) as Hnone.
      { apply entry_of_none. eapply Forall_impl; [exact Hgt|]. simpl. lia. }
      destruct (ProductBST._search_recursive h l k).
      * by rewrite IHl.
      * destruct IHl as [Hin ->]. split; [|done].
        apply elem_of_app. by left.
    + specialize (IHr Hr). rewrite entry_of_none.
      * destruct (ProductBST._search_recursive h r k); [done|].
        destruct IHr as [Hin ->]. split; [|done].
        apply elem_of_app. right. apply elem_of_cons. by right.
      * eapply Forall_impl; [exact Hlt|]. simpl. lia.
Qed.

(** The write through the node that [search] found replaces that entry
    and no other. *)
Lemma serialize_assign h t k d :
  ascending (ProductBST.serialize h t) →
  ProductBST.serialize h (ProductBST.assign_data h t k d) =
  replace_entry k (h !!! d) (ProductBST.serialize h t).
Proof.
  induction t as [|d0 l IHl r IHr]; [done|]. intros Hasc.
  destruct (ascending_node _ _ _ _ Hasc) as (Hl & Hr & Hlt).
  pose proof (ascending_node_r _ _ _ _ Hasc) as Hgt.
  simpl. unfold ProductBST.key.
  assert (∀ l1 x l2, replace_entry k (h !!! d) (l1 ++ x :: l2) =
    replace_entry k (h !!! d) l1 ++ (if has_id k x then h !!! d else x)
      :: replace_entry k (h !!! d) l2) as Happ.
  { intros. unfold replace_entry. by rewrite fmap_app. }
  destruct (Z.eqb_spec (id (h !!! d0)) k) as [Heq|Hne].
  - rewrite !serialize_node, Happ. unfold has_id.
    rewrite (proj2 (Z.eqb_eq _ _) Heq), !replace_entry_none; [done| |].
    + eapply Forall_impl; [exact Hgt|]. simpl. lia.
    + eapply Forall_impl; [exact Hlt|]. simpl. lia.
  - destruct (Z.ltb_spec k (id (h !!! d0))).
    + rewrite !serialize_node, Happ, IHl by done. unfold has_id.
      rewrite (proj2 (Z.eqb_neq _ _) Hne), (replace_entry_none _ _ (ProductBST.serialize h r)); [done|].
      eapply Forall_impl; [exact Hgt|]. simpl. lia.
    + rewrite !serialize_node, Happ, IHr by done. unfold has_id.
      rewrite (proj2 (Z.eqb_neq _ _) Hne), (replace_entry_none _ _ (ProductBST.serialize h l)); [done|].
      eapply Forall_impl; [exact Hlt|]. simpl. lia.
Qed.

Lemma inorder_assign (P : ref → Prop) h t k d :
  P d → Forall P (inorder t) → Forall P (inorder (ProductBST.assign_data h t k d)).
Proof.
  intros Hd. induction t as [|d0 l IHl r IHr]; simpl; [done|].
  rewrite Forall_app, Forall_cons. intros (Hl & Hd0 & Hr).
  repeat case_match; simpl; rewrite Forall_app, Forall_cons; auto.
Qed.

(** The search path depends on the ids of the tree's own objects only. *)
Lemma assign_data_app h h2 t k d :
  refs_valid h (inorder t) →
  ProductBST.assign_data (h ++ h2) t k d = ProductBST.assign_data h t k d.
Proof.
  induction t as [|d0 l IHl r IHr]; simpl; [done|].
  unfold refs_valid. rewrite Forall_app, Forall_cons. intros (Hl & Hd0 & Hr).
  unfold ProductBST.key. rewrite lookup_total_app_l by done.
  by rewrite IHl, IHr.
Qed.

Lemma find_products_valid h t ids acc found :
  tree_ok h t → refs_valid h acc →
  find_products h t ids acc = Ok found → refs_valid h found.
Proof.
  intros [Hv Hasc]. revert acc. induction ids as [|k ids IH]; intros acc Hacc; simpl.
  - by intros [= <-].
  - pose proof (search_entry h t k Hasc) as Hs.
    destruct (ProductBST.search h t k) as [|d l r]; [done|].
    destruct Hs as [Hin _]. apply IH.
    apply Forall_app. split; [done|]. constructor; [|constructor].
    unfold refs_valid in Hv. rewrite Forall_forall in Hv. by apply Hv.
Qed.
End SearchFacts.

(** ** The order list *)

Section OrderFacts.
Implicit Types (h : heap) (chain : list OrderNode) (oid : Z) (n : OrderNode).

Lemma find_order_split chain oid i :
  OrderLinkedList.find_order chain oid = Some i →
  ∃ before n after,
    chain = before ++ n :: after ∧ length before = i ∧ node_id n = oid ∧
    oid ∉ order_ids before.
Proof.
  revert i. induction chain as [|c chain IH]; intros i; simpl; [done|].
  destruct (Z.eqb_spec (node_id c) oid) as [Heq|Hne].
  - intros [= <-]. exists [], c, chain. repeat split; try done.
    unfold order_ids. simpl. apply not_elem_of_nil.
  - destruct (OrderLinkedList.find_order chain oid) as [j|]; [|done].
    intros [= <-]. destruct (IH j eq_refl) as (before & n & after & -> & <- & Hn & Hnot).
    exists (c :: before), n, after. repeat split; try done.
    unfold order_ids in *. simpl. rewrite elem_of_cons. intros [?|?]; [congruence|done].
Qed.

Lemma find_order_Some chain oid i :
  OrderLinkedList.find_order chain oid = Some i →
  ∃ n, chain !! i = Some n ∧ node_id n = oid.
Proof.
  intros (before & n & after & -> & <- & Hn & _)%find_order_split.
  exists n. split; [|done]. by rewrite list_lookup_middle.
Qed.

Lemma find_order_None chain oid :
  OrderLinkedList.find_order chain oid = None ↔ oid ∉ order_ids chain.
Proof.
  unfold order_ids. induction chain as [|c chain IH]; simpl.
  - split; [intros _; apply not_elem_of_nil|done].
  - rewrite elem_of_cons. destruct (Z.eqb_spec (node_id c) oid) as [Heq|Hne].
    + split; [done|]. intros Hnot. exfalso. apply Hnot. by left.
    + destruct (OrderLinkedList.find_order chain oid); simpl.
      * split; [done|]. intros Hnot. exfalso. apply (proj1 (not_iff_compat IH)); [done|].
        intros Hin. apply Hnot. by right.
      * split; [|done]. intros _ [?|Hin]; [congruence|]. by apply (proj1 IH).
Qed.

Lemma order_ids_alter (f : OrderNode → OrderNode) chain i :
  (∀ n, node_id (f n) = node_id n) →
  order_ids (alter f i chain) = order_ids chain.
Proof.
  intros Hf. unfold order_ids. rewrite (list_fmap_alter node_id f (λ z, z)).
  - by apply list_alter_id.
  - apply Forall_forall. intros n _. apply Hf.
Qed.

Lemma update_order_ids h chain oid st ps :
  order_ids (OrderLinkedList.update_order h chain oid st ps).1 = order_ids chain.
Proof.
  unfold OrderLinkedList.update_order.
  destruct (OrderLinkedList.find_order chain oid) as [i|]; [|done]. simpl.
  destruct ps as [ps|], st as [st|]; repeat case_match;
    rewrite ?order_ids_alter; done.
Qed.

Lemma update_order_ok h chain oid st ps :
  Forall (node_ok h) chain →
  (∀ l, ps = Some l → refs_valid h l) →
  Forall (node_ok h) (OrderLinkedList.update_order h chain oid st ps).1.
Proof.
  intros Hok Hps. unfold OrderLinkedList.update_order.
  destruct (OrderLinkedList.find_order chain oid) as [i|]; [|done]. simpl.
  assert (Forall (node_ok h)
    match st with
    | Some s => if truthy_str s then alter (set_status s) i chain else chain
    | None => chain
    end) as Hok1.
  { destruct st as [s|]; [|done]. destruct (truthy_str s); [|done].
    apply Forall_alter; [done|]. by intros n _ [??]. }
  destruct ps as [l|]; [|done]. destruct (truthy_list l); [|done].
  apply Forall_alter; [done|]. intros n _ _. split; [|done]. simpl. by apply Hps.
Qed.

Lemma delete_order_split chain oid :
  match OrderLinkedList.find_order chain oid with
  | None => OrderLinkedList.delete_order chain oid = (chain, false)
  | Some i =>
      ∃ before n after,
        (chain = before ++ n :: after) ∧ length before = i ∧ node_id n = oid ∧
        (oid ∉ order_ids before) ∧
        (OrderLinkedList.delete_order chain oid = (before ++ after, true))
  end.
Proof.
  induction chain as [|c chain IH]; simpl; [done|].
  destruct (Z.eqb_spec (node_id c) oid) as [Heq|Hne].
  - exists [], c, chain. repeat split; try done.
    unfold order_ids. simpl. apply not_elem_of_nil.
  - destruct (OrderLinkedList.find_order chain oid) as [j|]; simpl.
    + destruct IH as (before & n & after & -> & <- & Hn & Hnot & ->).
      exists (c :: before), n, after. repeat split; try done.
      unfold order_ids in *. simpl. rewrite elem_of_cons.
      intros [?|?]; [congruence|done].
    + rewrite IH. done.
Qed.

Lemma delete_order_Forall (P : OrderNode → Prop) chain oid :
  Forall P chain → Forall P (OrderLinkedList.delete_order chain oid).1.
Proof.
  intros HP. pose proof (delete_order_split chain oid) as Hd.
  destruct (OrderLinkedList.find_order chain oid) as [i|].
  - destruct Hd as (before & n & after & -> & _ & _ & _ & ->). simpl.
    rewrite Forall_app, Forall_cons in HP. rewrite Forall_app. tauto.
  - by rewrite Hd.
Qed.
End OrderFacts.

(** ** The invariant of a run *)

Section Invariant.
Implicit Types (s : State) (p : ProductModel).

Lemma invariant_save s : invariant s → invariant (save_data s).
Proof. done. Qed.

Lemma load_product_invariant s p : invariant s → invariant (load_product s p).
Proof.
  intros [[Hv Hasc] Hord]. split; [split|].
  - by apply load_product_refs.
  - change (ascending (products_of (load_product s p))).
    rewrite load_product_serialize by done. by apply upsert_ascending.
  - simpl. by apply nodes_ok_app.
Qed.

Lemma update_product_serialize s k p :
  invariant s →
  products_of
    (with_products (objects s ++ [p])
       (ProductBST.assign_data (objects s) (product_tree s) k (length (objects s))) s)
  = replace_entry k p (products_of s).
Proof.
  intros [[Hv Hasc] _]. unfold products_of. simpl.
  rewrite <-(assign_data_app _ [p]) by done.
  rewrite serialize_assign by (by rewrite serialize_app).
  rewrite serialize_app by done. f_equal.
  by rewrite lookup_total_app_r, Nat.sub_diag.
Qed.

Lemma update_product_invariant s k p :
  invariant s → id p = k →
  invariant
    (with_products (objects s ++ [p])
       (ProductBST.assign_data (objects s) (product_tree s) k (length (objects s))) s).
Proof.
  intros Hinv Hid. pose proof (update_product_serialize s k p Hinv) as Hser.
  destruct Hinv as [[Hv Hasc] Hord]. split; [split|].
  - simpl. apply inorder_assign.
    + rewrite length_app. simpl. lia.
    + by apply refs_valid_app.
  - unfold products_of in Hser. rewrite Hser.
    eapply ascending_ids; [|exact Hasc]. symmetry. by apply replace_entry_ids.
  - simpl. by apply nodes_ok_app.
Qed.

Lemma create_order_ok h chain oid ps :
  Forall (node_ok h) chain → refs_valid h ps →
  Forall (node_ok h) (OrderLinkedList.create_order h chain oid ps).1.
Proof.
  intros Hok Hps. simpl. apply Forall_app. split; [done|].
  by repeat constructor.
Qed.

Lemma load_order_invariant s o : invariant s → invariant (load_order s o).
Proof.
  intros [Htree Hord]. unfold load_order. simpl. split; simpl.
  - by apply tree_ok_app.
  - apply Forall_alter.
    + apply Forall_app. split; [by apply nodes_ok_app|].
      repeat constructor. simpl. apply refs_valid_fresh.
    + by intros n _ [??].
Qed.

Lemma foldl_invariant {A} (f : State → A → State) (l : list A) s :
  (∀ s x, invariant s → invariant (f s x)) →
  invariant s → invariant (foldl f s l).
Proof. intros Hf. revert s. induction l; simpl; auto. Qed.

Lemma load_data_invariant s : invariant s → invariant (load_data s).
Proof.
  intros Hinv. unfold load_data.
  assert (invariant
    match products_json s with
    | Some data => foldl load_product s data
    | None => s
    end) as Hinv1.
  { destruct (products_json s); [|done].
    apply foldl_invariant; [apply load_product_invariant|done]. }
  destruct (orders_json _); [|done].
  apply foldl_invariant; [apply load_order_invariant|done].
Qed.

Lemma startup_invariant products orders : invariant (startup products orders).
Proof.
  apply load_data_invariant. split; [split|]; simpl; constructor.
Qed.

Lemma create_product_invariant p s : invariant s → invariant (create_product p s).2.
Proof.
  intros Hinv. unfold create_product. case_match; [|done]. simpl.
  by apply (load_product_invariant s p).
Qed.

Lemma update_product_handler_invariant k p s :
  invariant s → invariant (update_product k p s).2.
Proof.
  intros Hinv. unfold update_product. case_match; [done|].
  destruct (Z.eqb_spec (id p) k); simpl; [|done].
  by apply update_product_invariant.
Qed.

Lemma create_order_invariant order s : invariant s → invariant (create_order order s).2.
Proof.
  intros Hinv. unfold create_order. case_match; [done|].
  destruct (find_products _ _ _ _) as [found|e] eqn:Hfound; [|done].
  destruct Hinv as [Htree Hord]. split; [done|]. simpl.
  apply (create_order_ok _ _ (in_id order) found Hord).
  eapply find_products_valid; [done| |done]. constructor.
Qed.

Lemma update_order_invariant oid update s :
  invariant s → invariant (update_order oid update s).2.
Proof.
  intros Hinv. unfold update_order.
  destruct Hinv as [Htree Hord].
  assert (∀ ps found,
    find_products (objects s) (product_tree s) ps [] = Ok found →
    refs_valid (objects s) found) as Hvalid.
  { intros ps found Hf. eapply find_products_valid; [done| |done]. constructor. }
  assert (∀ ps, (∀ l, ps = Some l → refs_valid (objects s) l) →
    invariant (let '(chain, node) :=
        OrderLinkedList.update_order (objects s) (order_list s) oid
          (upd_status update) ps in
      match node with
      | None => (Raise (NotFound "Pedido no encontrado"),
                 with_orders (objects s) chain s)
      | Some node =>
          (Ok (OrderLinkedList.to_dict (objects s) (chain !!! node)),
           save_data (with_orders (objects s) chain s))
      end).2) as Hstep.
  { intros ps Hps.
    pose proof (update_order_ok (objects s) (order_list s) oid
                  (upd_status update) ps Hord Hps) as Hok.
    destruct (OrderLinkedList.update_order _ _ _ _ _) as [chain [node|]];
      by split. }
  destruct (upd_product_ids update) as [ps|].
  - destruct (truthy_list ps).
    + destruct (find_products _ _ _ _) as [found|e] eqn:Hfound; [|by split].
      apply Hstep. intros l [= <-]. by eapply Hvalid.
    + by apply Hstep.
  - by apply Hstep.
Qed.

Lemma delete_order_invariant oid s : invariant s → invariant (delete_order oid s).2.
Proof.
  intros [Htree Hord]. unfold delete_order.
  pose proof (delete_order_Forall _ (order_list s) oid Hord) as Hok.
  destruct (OrderLinkedList.delete_order _ _) as [chain []]; by split.
Qed.

Lemma handle_invariant req s : invariant s → invariant (handle req s).
Proof.
  intros Hinv. destruct req; simpl.
  - by apply create_product_invariant.
  - unfold get_product. by case_match.
  - by apply update_product_handler_invariant.
  - by apply create_order_invariant.
  - unfold get_order. by case_match.
  - by apply update_order_invariant.
  - by apply delete_order_invariant.
  - done.
Qed.

Lemma reachable_invariant s : reachable s → invariant s.
Proof.
  induction 1; [apply startup_invariant|by apply handle_invariant].
Qed.
End Invariant.

(** ** Save, then load *)

Section RoundTrip.
Implicit Types (s : State) (o : OrderOutput).

Lemma load_products_frame data s :
  order_list (foldl load_product s data) = order_list s ∧
  orders_json (foldl load_product s data) = orders_json s.
Proof.
  revert s. induction data as [|p data IH]; intros s; simpl; [done|].
  destruct (IH (load_product s p)) as [-> ->]. done.
Qed.

Lemma recomputed_to_dict h n :
  node_ok h n → recomputed (OrderLinkedList.to_dict h n) = OrderLinkedList.to_dict h n.
Proof.
  intros [_ Ht]. unfold recomputed, OrderLinkedList.to_dict. simpl.
  by rewrite <-sum_prices_values, <-Ht.
Qed.

Lemma load_order_orders s o :
  invariant s → orders_of (load_order s o) = orders_of s ++ [recomputed o].
Proof.
  intros [_ Hord]. unfold orders_of, load_order. simpl.
  rewrite <-(Nat.add_0_r (length (order_list s))), alter_app_r.
  unfold OrderLinkedList.list_all. rewrite fmap_app. f_equal.
  - by apply list_all_app.
  - simpl. unfold OrderLinkedList.to_dict, recomputed. simpl.
    by rewrite sum_prices_values, deref_fresh.
Qed.

Lemma load_order_products s o :
  invariant s → products_of (load_order s o) = products_of s.
Proof.
  intros [[Hv _] _]. unfold products_of, load_order. simpl. by apply serialize_app.
Qed.

Lemma load_orders_result data s :
  invariant s →
  products_of (foldl load_order s data) = products_of s ∧
  orders_of (foldl load_order s data) = orders_of s ++ (recomputed <$> data).
Proof.
  revert s. induction data as [|o data IH]; intros s Hinv; simpl.
  - by rewrite app_nil_r.
  - destruct (IH (load_order s o)) as [-> ->]; [by apply load_order_invariant|].
    rewrite load_order_products, load_order_orders by done.
    by rewrite <-app_assoc.
Qed.

(** What a new process holds after [load_data], from the two documents. *)
Lemma startup_result products orders :
  products_of (startup (Some products) (Some orders))
    = foldl (λ acc p, upsert p acc) [] products ∧
  orders_of (startup (Some products) (Some orders)) = recomputed <$> orders.
Proof.
  unfold startup, load_data. simpl.
  set (s0 := fresh (Some products) (Some orders)).
  assert (invariant s0) as Hinv0 by (split; [split|]; constructor).
  destruct (load_products_frame products s0) as [Hlist Hjson].
  destruct (load_products_serialize products s0) as (_ & _ & Hser);
    [constructor|constructor|].
  rewrite Hjson. simpl.
  destruct (load_orders_result orders (foldl load_product s0 products)) as [-> ->].
  { apply foldl_invariant; [apply load_product_invariant|done]. }
  split; [done|]. unfold orders_of. by rewrite Hlist.
Qed.
End RoundTrip.

(** C2. From every state a run can reach, [save_data] followed by
    [load_data] in a new process (empty index, empty list) gives back the
    same product entries and the same orders: ids, product snapshots,
    totals and statuses, in the same order. *)
Theorem save_load_round_trip (s : State) :
  reachable s →
  products_of (startup (products_json (save_data s)) (orders_json (save_data s)))
    = products_of s ∧
  orders_of (startup (products_json (save_data s)) (orders_json (save_data s)))
    = orders_of s.
Proof.
  intros [[Hv Hasc] Hord]%reachable_invariant. simpl.
  destruct (startup_result (ProductBST.serialize (objects s) (product_tree s))
              (OrderLinkedList.list_all (objects s) (order_list s))) as [-> ->].
  split.
  - by apply foldl_upsert_ascending.
  - unfold orders_of, OrderLinkedList.list_all. rewrite <-list_fmap_compose.
    apply Forall_fmap_ext. eapply Forall_impl; [exact Hord|].
    intros n Hn. by apply recomputed_to_dict.
Qed.

Lemma shop_reachable : reachable shop.
Proof. unfold shop. repeat apply reachable_request. apply reachable_startup. Qed.

Lemma save_load_round_trip_witness :
  reachable shop ∧
  products_of (startup (products_json (save_data shop)) (orders_json (save_data shop)))
    = products_of shop ∧
  orders_of (startup (products_json (save_data shop)) (orders_json (save_data shop)))
    = orders_of shop.
Proof.
  split.
  - unfold shop. repeat apply reachable_request. apply reachable_startup.
  - apply (save_load_round_trip shop).
    unfold shop. repeat apply reachable_request. apply reachable_startup.
Defined.

(** ** Totals *)

(** C3. In every state a run can reach, and so after every create and
    every update of an order, each order's total is the sum of the prices
    of the product snapshots it holds at that moment. *)
Theorem total_is_sum_of_snapshots (s : State) (req : Request) (o : OrderOutput) :
  reachable s →
  o ∈ orders_of (handle req s) →
  out_total o = sum_values (out_products o).
Proof.
  intros Hreach Ho.
  assert (invariant (handle req s)) as [_ Hord].
  { apply reachable_invariant. by constructor. }
  apply list_elem_of_fmap in Ho as (n & -> & Hn).
  rewrite Forall_forall in Hord. destruct (Hord n Hn) as [_ Ht].
  simpl. by rewrite Ht, sum_prices_values.
Qed.

Lemma total_is_sum_of_snapshots_witness :
  reachable (handle (CreateProduct keyboard) (startup None None)) ∧
  {| out_id := 7; out_products := [keyboard]; out_total := 10.5%float;
     out_status := "pending" |}
    ∈ orders_of (handle (CreateOrder {| in_id := 7; in_product_ids := [2]%Z |})
                   (handle (CreateProduct keyboard) (startup None None))) ∧
  10.5%float = sum_values [keyboard].
Proof.
  assert (reachable (handle (CreateProduct keyboard) (startup None None))) as Hr.
  { apply reachable_request. apply reachable_startup. }
  assert ({| out_id := 7; out_products := [keyboard]; out_total := 10.5%float;
             out_status := "pending" |}
    ∈ orders_of (handle (CreateOrder {| in_id := 7; in_product_ids := [2]%Z |})
                   (handle (CreateProduct keyboard) (startup None None)))) as Hin.
  { vm_compute. apply elem_of_cons. by left. }
  split; [exact Hr|]. split; [exact Hin|].
  exact (total_is_sum_of_snapshots _ _ _ Hr Hin).
Defined.

(** ** Creating an order *)

Section CreateOrderFacts.
Implicit Types (s : State) (order : OrderInput).

(** The lookup loop stops at the first id that [search] does not find. *)
Lemma find_products_missing h t ids acc :
  ascending (ProductBST.serialize h t) →
  (∃ k, k ∈ ids ∧ entry_of k (ProductBST.serialize h t) = None) →
  ∃ k, k ∈ ids ∧ entry_of k (ProductBST.serialize h t) = None ∧
       find_products h t ids acc
         = Raise (NotFound ("Producto ID " +:+ pretty k +:+ " no encontrado")).
Proof.
  intros Hasc. revert acc. induction ids as [|k ids IH]; intros acc (k' & Hin & Hnone).
  - by apply not_elem_of_nil in Hin.
  - simpl. pose proof (search_entry h t k Hasc) as Hs.
    destruct (ProductBST.search h t k) as [|d l r].
    + exists k. split; [apply elem_of_cons; by left|done].
    + apply elem_of_cons in Hin as [->|Hin].
      { destruct Hs as [_ Hs]. congruence. }
      destruct (IH (acc ++ [d])) as (k0 & Hin0 & Hnone0 & Hraise); [by eauto|].
      exists k0. split; [apply elem_of_cons; by right|done].
Qed.

Lemma find_products_all_found h t ids acc found :
  ascending (ProductBST.serialize h t) →
  find_products h t ids acc = Ok found →
  ∀ k, k ∈ ids → is_Some (entry_of k (ProductBST.serialize h t)).
Proof.
  intros Hasc. revert acc. induction ids as [|k ids IH]; intros acc Hfound k' Hin.
  - by apply not_elem_of_nil in Hin.
  - simpl in Hfound. pose proof (search_entry h t k Hasc) as Hs.
    destruct (ProductBST.search h t k) as [|d l r]; [done|].
    apply elem_of_cons in Hin as [->|Hin]; [destruct Hs; eauto|].
    by eapply IH.
Qed.
End CreateOrderFacts.

(** C4, as the code has it. A create-order request with a new order id
    and at least one product id that the index does not hold fails with
    NotFound, naming such an id, and leaves the whole state as it was: no
    order is added and neither file is written.  (When the order id is
    already taken the request fails with Conflict before any product is
    looked up: see [create_order_existing_id_missing_product].) *)
Theorem create_order_missing_product (order : OrderInput) (s : State) :
  reachable s →
  OrderLinkedList.find_order (order_list s) (in_id order) = None →
  (∃ k, k ∈ in_product_ids order ∧ entry_of k (products_of s) = None) →
  ∃ k, k ∈ in_product_ids order ∧ entry_of k (products_of s) = None ∧
       create_order order s
         = (Raise (NotFound ("Producto ID " +:+ pretty k +:+ " no encontrado")), s).
Proof.
  intros [[_ Hasc] _]%reachable_invariant Hnew Hmissing.
  destruct (find_products_missing (objects s) (product_tree s)
              (in_product_ids order) [] Hasc Hmissing) as (k & Hin & Hnone & Hraise).
  exists k. repeat split; try done.
  unfold create_order. by rewrite Hnew, Hraise.
Qed.

Lemma create_order_missing_product_witness :
  reachable shop ∧
  OrderLinkedList.find_order (order_list shop) 8 = None ∧
  (∃ k, k ∈ [2; 9]%Z ∧ entry_of k (products_of shop) = None) ∧
  ∃ k, k ∈ [2; 9]%Z ∧ entry_of k (products_of shop) = None ∧
       create_order {| in_id := 8; in_product_ids := [2; 9]%Z |} shop
         = (Raise (NotFound ("Producto ID " +:+ pretty k +:+ " no encontrado")), shop).
Proof.
  assert (∃ k, k ∈ [2; 9]%Z ∧ entry_of k (products_of shop) = None) as Hmissing.
  { exists 9%Z. split; [|reflexivity]. apply elem_of_cons. right.
    apply elem_of_cons. by left. }
  split; [|split; [reflexivity|split; [exact Hmissing|]]].
  - unfold shop. repeat apply reachable_request. apply reachable_startup.
  - apply (create_order_missing_product {| in_id := 8; in_product_ids := [2; 9]%Z |} shop).
    + unfold shop. repeat apply reachable_request. apply reachable_startup.
    + reflexivity.
    + exact Hmissing.
Defined.

(** C4 as stated fails: order 7 exists in [shop], product 9 does not, and
    the request fails with Conflict (400), not with NotFound (404). *)
Lemma create_order_existing_id_missing_product :
  entry_of 9 (products_of shop) = None ∧
  create_order {| in_id := 7; in_product_ids := [9]%Z |} shop
    = (Raise {| status_code := 400; detail := "ID de pedido ya existe" |}, shop).
Proof. split; reflexivity. Qed.

(** ** Orders hold snapshots *)

(** An order holds the very objects the tree held when the products were
    looked up; [update_product] links a new object and writes no old one. *)
Example shop_shares_objects :
  product_tree shop = Node 0 (Node 1 NoNode NoNode) NoNode ∧
  node_products <$> order_list shop = [[0; 1]] ∧
  product_tree (handle (UpdateProduct 2 {| id := 2; name := "Teclado";
                  price := 99%float; description := "" |}) shop)
    = Node 2 (Node 1 NoNode NoNode) NoNode.
Proof. repeat split; reflexivity. Qed.

(** C5. Whatever is done to the product index afterwards (the
    update-product request, the create-product request, an insert with an
    id that is already there), every order of the list keeps its product
    snapshots, and with them its total. *)
Theorem product_changes_keep_order_snapshots
    (s : State) (product_id : Z) (product : ProductModel) :
  reachable s →
  orders_of (update_product product_id product s).2 = orders_of s ∧
  orders_of (create_product product s).2 = orders_of s ∧
  orders_of (load_product s product) = orders_of s.
Proof.
  intros [_ Hord]%reachable_invariant.
  assert (OrderLinkedList.list_all (objects s ++ [product]) (order_list s)
          = orders_of s) as Hkeep by by apply list_all_app.
  repeat split.
  - unfold update_product. case_match; [done|]. by case_match.
  - unfold create_product. by case_match.
  - done.
Qed.

Lemma product_changes_keep_order_snapshots_witness :
  reachable shop ∧
  orders_of (update_product 2 {| id := 2; name := "Teclado"; price := 99%float;
                                 description := "" |} shop).2 = orders_of shop ∧
  orders_of (create_product {| id := 2; name := "Teclado"; price := 99%float;
                               description := "" |} shop).2 = orders_of shop ∧
  orders_of (load_product shop {| id := 2; name := "Teclado"; price := 99%float;
                                  description := "" |}) = orders_of shop.
Proof.
  split.
  - unfold shop. repeat apply reachable_request. apply reachable_startup.
  - apply (product_changes_keep_order_snapshots shop).
    unfold shop. repeat apply reachable_request. apply reachable_startup.
Defined.

(** ** Updating an order *)

Section UpdateOrderFacts.
Implicit Types (s : State).

Lemma with_orders_same s : with_orders (objects s) (order_list s) s = s.
Proof. by destruct s. Qed.

Lemma find_products_nonempty h t ids acc found :
  find_products h t ids acc = Ok found → acc ≠ [] → found ≠ [].
Proof.
  revert acc. induction ids as [|k ids IH]; intros acc; simpl.
  - by intros [= <-].
  - destruct (ProductBST.search h t k); [done|].
    intros Hf _. apply (IH _ Hf). by destruct acc.
Qed.

Lemma find_products_truthy h t ids found :
  ids ≠ [] → find_products h t ids [] = Ok found → truthy_list found = true.
Proof.
  destruct ids as [|k ids]; [done|]. intros _. simpl.
  destruct (ProductBST.search h t k); [done|].
  intros Hf%find_products_nonempty; [by destruct found|done].
Qed.
Lemma update_order_status_only s order_id node new_status :
  OrderLinkedList.find_order (order_list s) order_id = Some node →
  (update_order order_id
     {| upd_status := Some new_status; upd_product_ids := None |} s).2
  = save_data (with_orders (objects s)
      (if truthy_str new_status
       then alter (set_status new_status) node (order_list s)
       else order_list s) s).
Proof.
  intros Hfind. unfold update_order, OrderLinkedList.update_order. simpl.
  by rewrite Hfind.
Qed.

Lemma update_order_products_only s order_id node ids found :
  OrderLinkedList.find_order (order_list s) order_id = Some node →
  ids ≠ [] →
  find_products (objects s) (product_tree s) ids [] = Ok found →
  (update_order order_id
     {| upd_status := None; upd_product_ids := Some ids |} s).2
  = save_data (with_orders (objects s)
      (alter (set_products found (OrderLinkedList.sum_prices (objects s) found))
         node (order_list s)) s).
Proof.
  intros Hfind Hids Hfound.
  pose proof (find_products_truthy _ _ _ _ Hids Hfound) as Htruthy.
  unfold update_order, OrderLinkedList.update_order.
  cbn [upd_product_ids upd_status].
  destruct ids as [|k ids]; [done|]. cbn [truthy_list].
  by rewrite Hfound, Hfind, Htruthy.
Qed.
End UpdateOrderFacts.

(** C6, as the code has it. For an order of the list: an update with only
    a status keeps the order's product snapshots and total (and sets the
    status when it is not the empty string); an update with only a
    non-empty product list whose ids all resolve keeps the status, puts the
    resolved products in place and sets the total to the sum of their
    prices; an update with only an empty product list changes nothing. *)
Theorem update_order_frame (s : State) (order_id : Z) (node : nat) :
  OrderLinkedList.find_order (order_list s) order_id = Some node →
  (∀ new_status,
     let s' := (update_order order_id
                  {| upd_status := Some new_status; upd_product_ids := None |} s).2 in
     objects s' = objects s ∧
     node_products (order_list s' !!! node) = node_products (order_list s !!! node) ∧
     node_total (order_list s' !!! node) = node_total (order_list s !!! node) ∧
     node_status (order_list s' !!! node)
       = (if truthy_str new_status then new_status
          else node_status (order_list s !!! node))) ∧
  (∀ ids found,
     ids ≠ [] →
     find_products (objects s) (product_tree s) ids [] = Ok found →
     let s' := (update_order order_id
                  {| upd_status := None; upd_product_ids := Some ids |} s).2 in
     objects s' = objects s ∧
     node_status (order_list s' !!! node) = node_status (order_list s !!! node) ∧
     node_products (order_list s' !!! node) = found ∧
     node_total (order_list s' !!! node)
       = OrderLinkedList.sum_prices (objects s') found) ∧
  order_list (update_order order_id
                {| upd_status := None; upd_product_ids := Some [] |} s).2
    = order_list s.
Proof.
  intros Hfind. destruct (find_order_Some _ _ _ Hfind) as (n & Hn & _).
  pose proof (lookup_lt_Some _ _ _ Hn) as Hlt.
  split; [|split].
  - intros new_status. cbv zeta.
    rewrite (update_order_status_only s order_id node new_status Hfind). simpl.
    destruct (truthy_str new_status); [|done].
    by rewrite list_lookup_total_alter_eq.
  - intros ids found Hids Hfound. cbv zeta.
    rewrite (update_order_products_only s order_id node ids found Hfind Hids Hfound).
    simpl. by rewrite list_lookup_total_alter_eq.
  - unfold update_order, OrderLinkedList.update_order. simpl. by rewrite Hfind.
Qed.

Lemma update_order_frame_witness :
  OrderLinkedList.find_order (order_list shop) 7 = Some 0 ∧
  find_products (objects shop) (product_tree shop) [1%Z] [] = Ok [1] ∧
  node_products
    (order_list (update_order 7 {| upd_status := None;
                                   upd_product_ids := Some [1%Z] |} shop).2 !!! 0)
    = [1] ∧
  order_list (update_order 7 {| upd_status := None;
                                upd_product_ids := Some [] |} shop).2
    = order_list shop.
Proof.
  pose proof (update_order_frame shop 7 0 eq_refl) as (_ & Hproducts & Hempty).
  destruct (Hproducts [1%Z] [1]) as (_ & _ & Hfound & _);
    [discriminate|reflexivity|].
  split; [reflexivity|]. split; [reflexivity|].
  split; [exact Hfound|exact Hempty].
Defined.

(** C6 as stated fails: an update of order 7 that supplies only the empty
    product list leaves both products and the total 15.75 in place; the
    order does not get the empty list and the total 0. *)
Lemma empty_product_list_is_ignored :
  orders_of (update_order 7 {| upd_status := None;
                               upd_product_ids := Some [] |} shop).2
    = [ {| out_id := 7; out_products := [keyboard; mouse];
           out_total := 15.75%float; out_status := "pending" |} ] ∧
  ¬ products_only_update_claim shop 7 [].
Proof.
  split; [reflexivity|]. intros Hclaim.
  destruct (Hclaim 0 [] eq_refl eq_refl) as (_ & Hproducts & _).
  vm_compute in Hproducts. discriminate.
Qed.

(** ** Unique order ids *)

Section UniqueIds.
Implicit Types (s : State).

Lemma create_order_ids order s :
  order_ids (order_list (create_order order s).2) = order_ids (order_list s) ∨
  (OrderLinkedList.find_order (order_list s) (in_id order) = None ∧
   order_ids (order_list (create_order order s).2)
     = order_ids (order_list s) ++ [in_id order]).
Proof.
  unfold create_order.
  destruct (OrderLinkedList.find_order _ _) eqn:Hfind; [by left|].
  destruct (find_products _ _ _ _); [|by left].
  right. split; [done|]. unfold order_ids. simpl. by rewrite fmap_app.
Qed.
Lemma create_order_keeps_unique order s :
  NoDup (order_ids (order_list s)) →
  NoDup (order_ids (order_list (create_order order s).2)).
Proof.
  intros Hnodup. destruct (create_order_ids order s) as [->|[Hfind ->]]; [done|].
  apply NoDup_app. split; [done|]. split; [|apply NoDup_singleton].
  intros x Hx ->%list_elem_of_singleton. by apply find_order_None in Hfind.
Qed.

Lemma delete_order_keeps_unique chain oid :
  NoDup (order_ids chain) →
  NoDup (order_ids (OrderLinkedList.delete_order chain oid).1).
Proof.
  intros Hnodup. pose proof (delete_order_split chain oid) as Hd.
  destruct (OrderLinkedList.find_order chain oid) as [i|]; [|by rewrite Hd].
  destruct Hd as (before & n & after & -> & _ & _ & _ & ->). simpl.
  unfold order_ids in *. rewrite fmap_app in *. simpl in Hnodup.
  apply NoDup_app in Hnodup as (Hb & Hba & Ha).
  apply NoDup_cons in Ha as [_ Ha]. apply NoDup_app. split; [done|].
  split; [|done]. intros x Hx Hin. apply (Hba x Hx). apply elem_of_cons. by right.
Qed.

Lemma saved_order_ids h chain :
  out_id <$> OrderLinkedList.list_all h chain = order_ids chain.
Proof.
  unfold OrderLinkedList.list_all, order_ids. by rewrite <-list_fmap_compose.
Qed.

Lemma ids_unique_save s :
  NoDup (order_ids (order_list s)) → ids_unique (save_data s).
Proof. intros Hnodup. split; [done|]. simpl. by rewrite saved_order_ids. Qed.

Lemma handle_ids_unique req s : ids_unique s → ids_unique (handle req s).
Proof.
  intros [Hnodup Hfile]. destruct req; simpl.
  - unfold create_product.
    destruct (ProductBST.search _ _ _); [|by split]. by apply ids_unique_save.
  - unfold get_product. destruct (ProductBST.search _ _ _); by split.
  - unfold update_product. destruct (ProductBST.search _ _ _); [by split|].
    destruct (negb _); [by split|]. by apply ids_unique_save.
  - pose proof (create_order_keeps_unique order s Hnodup) as Hkeep.
    unfold create_order in *.
    destruct (OrderLinkedList.find_order _ _); [by split|].
    destruct (find_products _ _ _ _); [|by split].
    by apply ids_unique_save.
  - unfold get_order. destruct (OrderLinkedList.find_order _ _); by split.
  - unfold update_order.
    assert (∀ ps, ids_unique
      (let '(chain, node) :=
         OrderLinkedList.update_order (objects s) (order_list s) order_id
           (upd_status update) ps in
       match node with
       | None => (Raise (NotFound "Pedido no encontrado"),
                  with_orders (objects s) chain s)
       | Some node =>
           (Ok (OrderLinkedList.to_dict (objects s) (chain !!! node)),
            save_data (with_orders (objects s) chain s))
       end).2) as Hstep.
    { intros ps.
      pose proof (update_order_ids (objects s) (order_list s) order_id
                    (upd_status update) ps) as Hids.
      destruct (OrderLinkedList.update_order _ _ _ _ _) as [chain [node|]];
        simpl in *.
      - apply ids_unique_save. simpl. by rewrite Hids.
      - split; simpl; [by rewrite Hids|done]. }
    destruct (upd_product_ids update) as [ids|]; [|apply Hstep].
    destruct (truthy_list ids); [|apply Hstep].
    destruct (find_products _ _ _ _); [apply Hstep|by split].
  - unfold delete_order.
    pose proof (delete_order_keeps_unique (order_list s) order_id Hnodup) as Hkeep.
    destruct (OrderLinkedList.delete_order _ _) as [chain []]; simpl in *.
    + by apply ids_unique_save.
    + by split.
  - by split.
Qed.

Lemma load_products_files data s :
  products_json (foldl load_product s data) = products_json s.
Proof.
  revert s. induction data as [|p data IH]; intros s; simpl; [done|].
  by rewrite IH.
Qed.

Lemma load_orders_ids data s :
  order_ids (order_list (foldl load_order s data))
    = order_ids (order_list s) ++ (out_id <$> data) ∧
  products_json (foldl load_order s data) = products_json s ∧
  orders_json (foldl load_order s data) = orders_json s.
Proof.
  revert s. induction data as [|o data IH]; intros s; simpl.
  - by rewrite app_nil_r.
  - destruct (IH (load_order s o)) as (-> & -> & ->). split; [|done].
    unfold load_order, order_ids. simpl.
    rewrite <-(Nat.add_0_r (length (order_list s))), alter_app_r.
    rewrite fmap_app. simpl. by rewrite <-app_assoc.
Qed.

Lemma startup_ids_unique products orders :
  match orders with None => True | Some l => NoDup (out_id <$> l) end →
  ids_unique (startup products orders) ∧
  products_json (startup products orders) = products ∧
  orders_json (startup products orders) = orders.
Proof.
  intros Hfile. unfold startup, load_data.
  set (s1 := match products_json (fresh products orders) with
             | Some data => foldl load_product (fresh products orders) data
             | None => fresh products orders
             end).
  assert (order_list s1 = [] ∧ products_json s1 = products ∧ orders_json s1 = orders)
    as (Hlist & Hp & Ho).
  { subst s1. simpl. destruct products as [data|]; [|done].
    destruct (load_products_frame data (fresh (Some data) orders)) as [-> ->].
    by rewrite load_products_files. }
  rewrite Ho. destruct orders as [l|].
  - destruct (load_orders_ids l s1) as (Hids & Hpj & Hoj).
    unfold ids_unique. rewrite Hids, Hpj, Hoj, Hlist, Ho. simpl. done.
  - unfold ids_unique. rewrite Hlist, Ho. repeat split; try done. constructor.
Qed.

Lemma own_run_reachable s : own_run s → reachable s.
Proof. induction 1; by constructor. Qed.

(** Order ids are unique in every state of the service's own runs. *)
Lemma own_run_ids_unique s : own_run s → ids_unique s.
Proof.
  induction 1 as [|s req _ IH|s _ [_ IH]].
  - by apply (startup_ids_unique None None).
  - by apply handle_ids_unique.
  - by apply startup_ids_unique.
Qed.
End UniqueIds.

(** C7. A create-order request with an id that is already in the list
    fails with Conflict and leaves the whole state as it was: the list
    still holds exactly the orders it held, and nothing is written.  So
    the request never makes an id occur twice, and in the runs of a
    service that starts without files and loads its own files, no id ever
    occurs twice in the list. *)
Theorem create_order_duplicate_id (order : OrderInput) (s : State) :
  (in_id order ∈ order_ids (order_list s) →
   create_order order s = (Raise (Conflict "ID de pedido ya existe"), s)) ∧
  (NoDup (order_ids (order_list s)) →
   NoDup (order_ids (order_list (create_order order s).2))) ∧
  (own_run s → NoDup (order_ids (order_list s))).
Proof.
  split; [|split].
  - intros Hin. unfold create_order.
    destruct (OrderLinkedList.find_order _ _) eqn:Hfind; [done|].
    by apply find_order_None in Hfind.
  - apply create_order_keeps_unique.
  - by intros [Hnodup _]%own_run_ids_unique.
Qed.

Lemma create_order_duplicate_id_witness :
  7%Z ∈ order_ids (order_list shop) ∧
  NoDup (order_ids (order_list shop)) ∧
  create_order {| in_id := 7; in_product_ids := [1]%Z |} shop
    = (Raise (Conflict "ID de pedido ya existe"), shop) ∧
  NoDup (order_ids (order_list
    (create_order {| in_id := 7; in_product_ids := [1]%Z |} shop).2)).
Proof.
  assert (7%Z ∈ order_ids (order_list shop)) as Hin.
  { vm_compute. apply elem_of_cons. by left. }
  assert (NoDup (order_ids (order_list shop))) as Hnodup.
  { vm_compute. apply NoDup_singleton. }
  destruct (create_order_duplicate_id {| in_id := 7; in_product_ids := [1]%Z |} shop)
    as (Hconflict & Hkeep & _).
  split; [exact Hin|]. split; [exact Hnodup|].
  split; [exact (Hconflict Hin)|exact (Hkeep Hnodup)].
Defined.

(** ** Updating a product *)

(** C8. The update-product request fails with NotFound when the index has
    no entry with the target id; otherwise it fails with InvalidArgument
    when the supplied record carries another id; otherwise it succeeds,
    the entry with that id now holds the supplied record, every other
    entry and every id is as before, and both files are written. *)
Theorem update_product_cases
    (product_id : Z) (updated_info : ProductModel) (s : State) :
  reachable s →
  match entry_of product_id (products_of s) with
  | None =>
      update_product product_id updated_info s
        = (Raise (NotFound "Producto no encontrado"), s)
  | Some _ =>
      if (id updated_info =? product_id)%Z then
        ∃ s',
          update_product product_id updated_info s
            = (Ok ("Producto actualizado correctamente", updated_info), s') ∧
          products_of s' = replace_entry product_id updated_info (products_of s) ∧
          id <$> products_of s' = id <$> products_of s ∧
          products_json s' = Some (products_of s') ∧
          orders_json s' = Some (orders_of s')
      else
        update_product product_id updated_info s
          = (Raise (InvalidArgument "No se permite cambiar el ID del producto"), s)
  end.
Proof.
  intros Hinv%reachable_invariant.
  pose proof (update_product_serialize s product_id updated_info Hinv) as Hser.
  destruct Hinv as [[Hv Hasc] Hord].
  pose proof (search_entry (objects s) (product_tree s) product_id Hasc) as Hs.
  unfold update_product, products_of.
  destruct (ProductBST.search _ _ _) as [|d l r].
  - by rewrite Hs.
  - destruct Hs as [_ ->].
    destruct (Z.eqb_spec (id updated_info) product_id) as [Hid|Hid]; [|done].
    simpl. eexists. split; [|split; [|split; [|split]]].
    + by rewrite lookup_total_app_r, Nat.sub_diag.
    + exact Hser.
    + unfold products_of in Hser. simpl in Hser. simpl. rewrite Hser.
      by apply replace_entry_ids.
    + done.
    + done.
Qed.

Lemma update_product_cases_witness :
  reachable shop ∧
  ∃ s',
    update_product 2 {| id := 2; name := "Teclado"; price := 99%float;
                        description := "" |} shop
      = (Ok ("Producto actualizado correctamente",
             {| id := 2; name := "Teclado"; price := 99%float; description := "" |}),
         s') ∧
    products_of s'
      = replace_entry 2 {| id := 2; name := "Teclado"; price := 99%float;
                           description := "" |} (products_of shop) ∧
    id <$> products_of s' = id <$> products_of shop ∧
    products_json s' = Some (products_of s') ∧
    orders_json s' = Some (orders_of s').
Proof.
  split.
  - unfold shop. repeat apply reachable_request. apply reachable_startup.
  - apply (update_product_cases 2
             {| id := 2; name := "Teclado"; price := 99%float; description := "" |}
             shop).
    unfold shop. repeat apply reachable_request. apply reachable_startup.
Defined.

(** ** Deleting an order *)

(** C9, as the code has it.  [delete_order] on a chain without a record
    of the id returns false and the same chain.  On a chain with such a
    record it returns true and the chain without the first such record:
    what came before it is now followed by what came after it (the head
    moves on when nothing came before), so one record fewer is listed and the others keep their
    order.  When ids are unique in the chain, [find_order] no longer finds
    the id afterwards; and ids are unique in the list of every state of
    the service's own runs. *)
Theorem delete_order_removes_one
    (h : heap) (chain : list OrderNode) (order_id : Z) :
  (order_id ∉ order_ids chain →
   OrderLinkedList.delete_order chain order_id = (chain, false)) ∧
  (order_id ∈ order_ids chain →
   ∃ before node after,
     chain = before ++ node :: after ∧ node_id node = order_id ∧
     (order_id ∉ order_ids before) ∧
     OrderLinkedList.delete_order chain order_id = (before ++ after, true) ∧
     OrderLinkedList.list_all h (before ++ after)
       = OrderLinkedList.list_all h before ++ OrderLinkedList.list_all h after ∧
     S (length (OrderLinkedList.list_all h (before ++ after)))
       = length (OrderLinkedList.list_all h chain)) ∧
  (NoDup (order_ids chain) →
   OrderLinkedList.find_order (OrderLinkedList.delete_order chain order_id).1 order_id
     = None) ∧
  (∀ s, own_run s → NoDup (order_ids (order_list s))).
Proof.
  assert (∀ s, own_run s → NoDup (order_ids (order_list s))) as Hrun.
  { by intros s [Hnodup _]%own_run_ids_unique. }
  pose proof (delete_order_split chain order_id) as Hd.
  destruct (OrderLinkedList.find_order chain order_id) as [i|] eqn:Hfind.
  - destruct Hd as (before & n & after & -> & _ & Hn & Hnot & Hdel).
    split; [|split; [|split; [|exact Hrun]]].
    + intros Hnotin. apply find_order_None in Hnotin. congruence.
    + intros _. exists before, n, after. repeat split; try done.
      * unfold OrderLinkedList.list_all. by rewrite fmap_app.
      * unfold OrderLinkedList.list_all. rewrite !length_fmap, !length_app. simpl. lia.
    + intros Hnodup. rewrite Hdel. simpl. apply find_order_None.
      unfold order_ids in *. rewrite fmap_app in *. simpl in Hnodup.
      apply NoDup_app in Hnodup as (_ & _ & Hafter).
      apply NoDup_cons in Hafter as [Hafter _]. rewrite Hn in Hafter.
      rewrite elem_of_app. tauto.
  - rewrite Hd. split; [done|]. split.
    + intros Hin. by apply find_order_None in Hfind.
    + split; [done|exact Hrun].
Qed.

Lemma delete_order_removes_one_witness :
  7%Z ∈ order_ids (order_list shop) ∧
  NoDup (order_ids (order_list shop)) ∧
  OrderLinkedList.find_order
    (OrderLinkedList.delete_order (order_list shop) 7).1 7 = None ∧
  ∃ before node after,
    order_list shop = before ++ node :: after ∧ node_id node = 7%Z ∧
    (7%Z ∉ order_ids before) ∧
    OrderLinkedList.delete_order (order_list shop) 7 = (before ++ after, true) ∧
    OrderLinkedList.list_all (objects shop) (before ++ after)
      = OrderLinkedList.list_all (objects shop) before
        ++ OrderLinkedList.list_all (objects shop) after ∧
    S (length (OrderLinkedList.list_all (objects shop) (before ++ after)))
      = length (OrderLinkedList.list_all (objects shop) (order_list shop)).
Proof.
  assert (7%Z ∈ order_ids (order_list shop)) as Hin.
  { vm_compute. apply elem_of_cons. by left. }
  assert (NoDup (order_ids (order_list shop))) as Hnodup.
  { vm_compute. apply NoDup_singleton. }
  destruct (delete_order_removes_one (objects shop) (order_list shop) 7)
    as (_ & Hfound & Hgone & _).
  split; [exact Hin|]. split; [exact Hnodup|].
  split; [exact (Hgone Hnodup)|exact (Hfound Hin)].
Defined.

(** C9 as stated fails: it is claimed for every order list, and a list
    can hold an id twice.  An orders file with two orders of id 7 loads
    both ([load_data] does not look for the id); [delete_order] then
    unlinks the first and returns true, and [find_order] still finds
    order 7, the second one, now at the head. *)
Lemma delete_order_repeated_id_still_found :
  reachable (startup None (Some (orders_of shop ++ orders_of shop))) ∧
  order_ids (order_list (startup None (Some (orders_of shop ++ orders_of shop))))
    = [7; 7]%Z ∧
  (OrderLinkedList.delete_order
     (order_list (startup None (Some (orders_of shop ++ orders_of shop)))) 7).2
    = true ∧
  OrderLinkedList.find_order
    (OrderLinkedList.delete_order
       (order_list (startup None (Some (orders_of shop ++ orders_of shop)))) 7).1 7
    = Some 0.
Proof.
  split; [apply reachable_startup|]. split; [reflexivity|].
  split; reflexivity.
Qed.

(** ** Failed order requests *)

(** C10. An update-order or delete-order request that fails, fails with
    NotFound (404) and leaves the object store, the product index, the
    order list and both files exactly as they were.  Both requests do fail
    when the list has no order with the id. *)
Theorem failed_order_request_changes_nothing
    (order_id : Z) (update : OrderUpdate) (s : State) (e : HTTPException) :
  ((update_order order_id update s).1 = Raise e →
   status_code e = 404%Z ∧ (update_order order_id update s).2 = s) ∧
  ((delete_order order_id s).1 = Raise e →
   status_code e = 404%Z ∧ (delete_order order_id s).2 = s) ∧
  (order_id ∉ order_ids (order_list s) →
   (∃ e', (update_order order_id update s).1 = Raise e') ∧
   (delete_order order_id s).1 = Raise (NotFound "Pedido no encontrado")).
Proof.
  assert (∀ h t ids acc e', find_products h t ids acc = Raise e' →
            status_code e' = 404%Z) as Hcode.
  { intros h t ids. induction ids as [|k ids IH]; intros acc e'; simpl; [done|].
    destruct (ProductBST.search h t k); [by intros [= <-]|apply IH]. }
  assert (∀ ps,
    let r := (let '(chain, node) :=
        OrderLinkedList.update_order (objects s) (order_list s) order_id
          (upd_status update) ps in
      match node with
      | None => (Raise (NotFound "Pedido no encontrado"),
                 with_orders (objects s) chain s)
      | Some node =>
          (Ok (OrderLinkedList.to_dict (objects s) (chain !!! node)),
           save_data (with_orders (objects s) chain s))
      end) in
    (r.1 = Raise e → status_code e = 404%Z ∧ r.2 = s) ∧
    (order_id ∉ order_ids (order_list s) → ∃ e', r.1 = Raise e')) as Hstep.
  { intros ps. unfold OrderLinkedList.update_order.
    destruct (OrderLinkedList.find_order _ _) as [node|] eqn:Hfind; simpl.
    - split; [done|]. intros Hnot. apply find_order_None in Hnot. congruence.
    - split; [|by eauto]. intros [= <-]. split; [done|]. apply with_orders_same. }
  pose proof (delete_order_split (order_list s) order_id) as Hd.
  split; [|split].
  - unfold update_order. destruct (upd_product_ids update) as [ids|].
    + destruct (truthy_list ids).
      * destruct (find_products _ _ _ _) as [found|e'] eqn:Hfound.
        -- exact (proj1 (Hstep _)).
        -- simpl. intros [= <-]. split; [by eapply Hcode|done].
      * exact (proj1 (Hstep _)).
    + exact (proj1 (Hstep _)).
  - unfold delete_order.
    destruct (OrderLinkedList.find_order _ _) as [i|].
    + destruct Hd as (before & n & after & _ & _ & _ & _ & ->). done.
    + rewrite Hd. simpl. intros [= <-]. split; [done|]. apply with_orders_same.
  - intros Hnot. split.
    + unfold update_order. destruct (upd_product_ids update) as [ids|].
      * destruct (truthy_list ids).
        -- destruct (find_products _ _ _ _) as [found|e'] eqn:Hfound; [|by eauto].
           exact (proj2 (Hstep _) Hnot).
        -- exact (proj2 (Hstep _) Hnot).
      * exact (proj2 (Hstep _) Hnot).
    + unfold delete_order.
      apply find_order_None in Hnot. rewrite Hnot in Hd. by rewrite Hd.
Qed.

Lemma failed_order_request_changes_nothing_witness :
  (update_order 8 {| upd_status := Some "shipped"; upd_product_ids := None |} shop).1
    = Raise (NotFound "Pedido no encontrado") ∧
  (delete_order 8 shop).1 = Raise (NotFound "Pedido no encontrado") ∧
  (8%Z ∉ order_ids (order_list shop)) ∧
  (update_order 8 {| upd_status := Some "shipped"; upd_product_ids := None |} shop).2
    = shop ∧
  (delete_order 8 shop).2 = shop.
Proof.
  destruct (failed_order_request_changes_nothing 8
              {| upd_status := Some "shipped"; upd_product_ids := None |} shop
              (NotFound "Pedido no encontrado")) as (Hupdate & Hdelete & _).
  split; [reflexivity|]. split; [reflexivity|]. split.
  - vm_compute. intros Hin. apply elem_of_cons in Hin as [Hin|Hin]; [discriminate|].
    by apply not_elem_of_nil in Hin.
  - split; [exact (proj2 (Hupdate eq_refl))|exact (proj2 (Hdelete eq_refl))].
Defined.

(** * Further properties of the handlers and the two stores *)

(** ** Notions *)

(** The documents of the product ids of a request, in the order of the
    request, when every id has an entry. *)
Fixpoint resolve (l : list ProductModel) (ids : list Z)
  : option (list ProductModel) :=
  match ids with
  | [] => Some []
  | k :: ids =>
      match entry_of k l, resolve l ids with
      | Some p, Some ps => Some (p :: ps)
      | _, _ => None
      end
  end.

Definition order_with_id (k : Z) (o : OrderOutput) : bool := (out_id o =? k)%Z.

Definition error_of {A} (r : Result A) : option HTTPException :=
  match r with
  | Ok _ => None
  | Raise e => Some e
  end.

(** The exception a request ends with, if any. *)
Definition raised (req : Request) (s : State) : option HTTPException :=
  match req with
  | CreateProduct product => error_of (create_product product s).1
  | GetProduct product_id => error_of (get_product product_id s).1
  | UpdateProduct product_id updated_info =>
      error_of (update_product product_id updated_info s).1
  | CreateOrder order => error_of (create_order order s).1
  | GetOrder order_id => error_of (get_order order_id s).1
  | UpdateOrder order_id update => error_of (update_order order_id update s).1
  | DeleteOrder order_id => error_of (delete_order order_id s).1
  | ListOrders => error_of (list_orders s).1
  end.

(** POST, PUT and DELETE requests. *)
Definition mutating (req : Request) : bool :=
  match req with
  | GetProduct _ | GetOrder _ | ListOrders => false
  | _ => true
  end.

(** A tree without a left child anywhere: a chain to the right. *)
Fixpoint right_spine (refs : list ref) : ProductNode :=
  match refs with
  | [] => NoNode
  | r :: refs => Node r NoNode (right_spine refs)
  end.

(** ** Reading and creating products *)

Section ProductRequests.
Implicit Types (s : State) (p : ProductModel) (k : Z).

Lemma get_product_entry k s :
  invariant s →
  get_product k s
    = (match entry_of k (products_of s) with
       | Some p => Ok p
       | None => Raise (NotFound "Producto no encontrado")
       end, s).
Proof.
  intros [[_ Hasc] _].
  pose proof (search_entry (objects s) (product_tree s) k Hasc) as Hs.
  unfold get_product, products_of.
  destruct (ProductBST.search _ _ _) as [|d l r].
  - by rewrite Hs.
  - destruct Hs as [_ ->]. done.
Qed.

Lemma upsert_length p (l : list ProductModel) :
  entry_of (id p) l = None → length (upsert p l) = S (length l).
Proof.
  unfold entry_of, has_id. induction l as [|q l IH]; simpl; [done|].
  destruct (Z.eqb_spec (id q) (id p)) as [Heq|Hne]; [done|]. intros Hnone.
  destruct (Z.ltb_spec (id p) (id q)); [done|].
  destruct (Z.gtb_spec (id p) (id q)); [|lia]. simpl. by rewrite IH.
Qed.

Lemma entry_of_replace_same k p (l : list ProductModel) :
  id p = k →
  entry_of k (replace_entry k p l)
    = match entry_of k l with Some _ => Some p | None => None end.
Proof.
  intros Hid. unfold entry_of, replace_entry, has_id.
  induction l as [|q l IH]; csimpl; [done|].
  destruct (Z.eqb_spec (id q) k) as [Hq|Hq].
  - by rewrite Hid, Z.eqb_refl.
  - destruct (Z.eqb_spec (id q) k); [done|]. exact IH.
Qed.

Lemma entry_of_replace_other k k0 p (l : list ProductModel) :
  id p = k0 → k ≠ k0 → entry_of k (replace_entry k0 p l) = entry_of k l.
Proof.
  intros Hid Hne. unfold entry_of, replace_entry, has_id.
  induction l as [|q l IH]; csimpl; [done|].
  destruct (Z.eqb_spec (id q) k0) as [Hq|Hq].
  - rewrite Hid. destruct (Z.eqb_spec k0 k); [congruence|].
    destruct (Z.eqb_spec (id q) k); [congruence|]. exact IH.
  - destruct (Z.eqb_spec (id q) k); [done|]. exact IH.
Qed.
End ProductRequests.

(** X1. In every reachable state [get_product] answers with the entry that
    [serialize] lists under the id, fails with 404 exactly when there is
    none, and leaves the state as it was. *)
Theorem get_product_returns_entry (product_id : Z) (s : State) :
  reachable s →
  get_product product_id s
    = (match entry_of product_id (products_of s) with
       | Some p => Ok p
       | None => Raise (NotFound "Producto no encontrado")
       end, s).
Proof. intros Hinv%reachable_invariant. by apply get_product_entry. Qed.

Lemma get_product_returns_entry_witness :
  reachable shop ∧ get_product 2 shop = (Ok keyboard, shop).
Proof.
  split.
  - unfold shop. repeat apply reachable_request. apply reachable_startup.
  - apply (get_product_returns_entry 2 shop).
    unfold shop. repeat apply reachable_request. apply reachable_startup.
Defined.

(** X2. [create_product] never overwrites: with an entry under the id it
    fails with 400 and changes nothing; without one it answers with the
    product, the index has exactly one entry more (the product, at its
    place in id order), both files are written, and [get_product] then
    finds the product. *)
Theorem create_product_cases (product : ProductModel) (s : State) :
  reachable s →
  match entry_of (id product) (products_of s) with
  | Some _ =>
      create_product product s
        = (Raise (Conflict "Producto con ese ID ya existe"), s)
  | None =>
      ∃ s',
        create_product product s = (Ok product, s') ∧
        products_of s' = upsert product (products_of s) ∧
        length (products_of s') = S (length (products_of s)) ∧
        products_json s' = Some (products_of s') ∧
        orders_json s' = Some (orders_of s') ∧
        get_product (id product) s' = (Ok product, s')
  end.
Proof.
  intros Hinv%reachable_invariant.
  pose proof (load_product_invariant s product Hinv) as Hinv'.
  destruct Hinv as [[Hv Hasc] Hord].
  pose proof (load_product_serialize s product Hv Hasc) as Hser.
  pose proof (search_entry (objects s) (product_tree s) (id product) Hasc) as Hs.
  unfold create_product. fold (products_of s) in Hs.
  destruct (ProductBST.search _ _ _) as [|d l r].
  - rewrite Hs. exists (save_data (load_product s product)).
    split; [|split; [|split; [|split; [|split]]]].
    + simpl. by rewrite lookup_total_app_r, Nat.sub_diag.
    + exact Hser.
    + change (length (products_of (load_product s product))
              = S (length (products_of s))).
      rewrite Hser. by apply upsert_length.
    + done.
    + done.
    + rewrite (get_product_entry (id product) (save_data (load_product s product)))
        by done.
      change (products_of (save_data (load_product s product)))
        with (products_of (load_product s product)).
      rewrite Hser, entry_of_upsert. unfold has_id. by rewrite Z.eqb_refl.
  - destruct Hs as [_ ->]. done.
Qed.

Lemma create_product_cases_witness :
  reachable shop ∧
  create_product keyboard shop
    = (Raise (Conflict "Producto con ese ID ya existe"), shop).
Proof.
  split.
  - unfold shop. repeat apply reachable_request. apply reachable_startup.
  - apply (create_product_cases keyboard shop).
    unfold shop. repeat apply reachable_request. apply reachable_startup.
Defined.

(** ** The product index over a run *)

Section IndexOverRuns.
Implicit Types (s : State) (p : ProductModel) (k : Z).

Lemma update_product_ok k p s :
  invariant s → is_Some (entry_of k (products_of s)) → id p = k →
  update_product k p s
    = (Ok ("Producto actualizado correctamente", p),
       save_data (with_products (objects s ++ [p])
         (ProductBST.assign_data (objects s) (product_tree s) k
            (length (objects s))) s)).
Proof.
  intros [[_ Hasc] _] [q Hq] Hid.
  pose proof (search_entry (objects s) (product_tree s) k Hasc) as Hs.
  unfold update_product. fold (products_of s) in Hs.
  destruct (ProductBST.search _ _ _) as [|d l r]; [congruence|].
  rewrite (proj2 (Z.eqb_eq _ _) Hid). simpl.
  by rewrite lookup_total_app_r, Nat.sub_diag.
Qed.

(** The order handlers leave the object store and the tree alone. *)
Lemma order_request_frame req s :
  match req with
  | CreateOrder _ | GetOrder _ | UpdateOrder _ _ | DeleteOrder _ | ListOrders =>
      objects (handle req s) = objects s ∧
      product_tree (handle req s) = product_tree s
  | _ => True
  end.
Proof.
  destruct req; simpl; try done.
  - unfold create_order. destruct (OrderLinkedList.find_order _ _); [done|].
    by destruct (find_products _ _ _ _).
  - unfold get_order. by destruct (OrderLinkedList.find_order _ _).
  - unfold update_order.
    assert (∀ ps,
      let r := (let '(chain, node) :=
         OrderLinkedList.update_order (objects s) (order_list s) order_id
           (upd_status update) ps in
       match node with
       | None => (Raise (NotFound "Pedido no encontrado"),
                  with_orders (objects s) chain s)
       | Some node =>
           (Ok (OrderLinkedList.to_dict (objects s) (chain !!! node)),
            save_data (with_orders (objects s) chain s))
       end) in
      objects r.2 = objects s ∧ product_tree r.2 = product_tree s) as Hstep.
    { intros ps. simpl.
      by destruct (OrderLinkedList.update_order _ _ _ _ _) as [chain [node|]]. }
    destruct (upd_product_ids update) as [ids|]; [|apply Hstep].
    destruct (truthy_list ids); [|apply Hstep].
    destruct (find_products _ _ _ _); [apply Hstep|done].
  - unfold delete_order.
    by destruct (OrderLinkedList.delete_order _ _) as [chain []].
Qed.

Lemma handle_products req s :
  invariant s →
  products_of (handle req s) = products_of s ∨
  (∃ p, req = CreateProduct p ∧
        products_of (handle req s) = upsert p (products_of s)) ∨
  (∃ k p, req = UpdateProduct k p ∧ id p = k ∧
          products_of (handle req s) = replace_entry k p (products_of s)).
Proof.
  intros Hinv. pose proof (order_request_frame req s) as Hframe.
  assert (objects (handle req s) = objects s ∧
          product_tree (handle req s) = product_tree s →
          products_of (handle req s) = products_of s) as Hsame.
  { unfold products_of. by intros [-> ->]. }
  destruct req; try (left; by apply Hsame); simpl.
  - unfold create_product. destruct (ProductBST.search _ _ _); [|by left].
    right. left. exists product. split; [done|].
    destruct Hinv as [[Hv Hasc] _]. by apply load_product_serialize.
  - unfold get_product. left. by destruct (ProductBST.search _ _ _).
  - unfold update_product. destruct (ProductBST.search _ _ _); [by left|].
    destruct (Z.eqb_spec (id updated_info) product_id) as [Hid|Hid]; [|by left].
    right. right. exists product_id, updated_info. repeat split; try done.
    by apply update_product_serialize.
Qed.
End IndexOverRuns.

(** X3. After a successful [update_product], [get_product] under the id
    answers with the supplied record, and under every other id with what
    it answered before. *)
Theorem update_product_then_get
    (product_id : Z) (updated_info : ProductModel) (s : State) :
  reachable s →
  is_Some (entry_of product_id (products_of s)) →
  id updated_info = product_id →
  ∃ s',
    update_product product_id updated_info s
      = (Ok ("Producto actualizado correctamente", updated_info), s') ∧
    get_product product_id s' = (Ok updated_info, s') ∧
    ∀ k, k ≠ product_id → (get_product k s').1 = (get_product k s).1.
Proof.
  intros Hinv%reachable_invariant Hsome Hid.
  pose proof (update_product_invariant s product_id updated_info Hinv Hid) as Hinv'.
  pose proof (update_product_serialize s product_id updated_info Hinv) as Hser.
  eexists. split; [by apply update_product_ok|].
  split.
  - rewrite get_product_entry by done.
    change (products_of (save_data ?x)) with (products_of x).
    rewrite Hser, entry_of_replace_same by done. by destruct Hsome as [q ->].
  - intros k Hk. rewrite !get_product_entry by done.
    change (products_of (save_data ?x)) with (products_of x).
    by rewrite Hser, entry_of_replace_other.
Qed.

Lemma update_product_then_get_witness :
  reachable shop ∧
  is_Some (entry_of 2 (products_of shop)) ∧
  ∃ s',
    update_product 2 {| id := 2; name := "Teclado"; price := 99%float;
                        description := "" |} shop
      = (Ok ("Producto actualizado correctamente",
             {| id := 2; name := "Teclado"; price := 99%float; description := "" |}),
         s') ∧
    get_product 2 s'
      = (Ok {| id := 2; name := "Teclado"; price := 99%float; description := "" |},
         s') ∧
    ∀ k, k ≠ 2%Z → (get_product k s').1 = (get_product k shop).1.
Proof.
  assert (reachable shop) as Hr.
  { unfold shop. repeat apply reachable_request. apply reachable_startup. }
  assert (is_Some (entry_of 2 (products_of shop))) as Hsome.
  { exists keyboard. reflexivity. }
  split; [exact Hr|]. split; [exact Hsome|].
  exact (update_product_then_get 2
           {| id := 2; name := "Teclado"; price := 99%float; description := "" |}
           shop Hr Hsome eq_refl).
Defined.

(** X4. No request removes a product: an id that has an entry in a
    reachable state has one after any request. *)
Theorem products_are_never_removed (req : Request) (s : State) (k : Z) :
  reachable s →
  is_Some (entry_of k (products_of s)) →
  is_Some (entry_of k (products_of (handle req s))).
Proof.
  intros Hinv%reachable_invariant Hsome.
  destruct (handle_products req s Hinv)
    as [->|[(p & _ & ->)|(k0 & p & _ & Hid & ->)]]; [done| |].
  - rewrite entry_of_upsert. by destruct (has_id k p).
  - destruct (decide (k = k0)) as [->|Hne].
    + rewrite entry_of_replace_same by done. by destruct Hsome as [q ->].
    + by rewrite entry_of_replace_other.
Qed.

Lemma products_are_never_removed_witness :
  reachable shop ∧
  is_Some (entry_of 1 (products_of shop)) ∧
  is_Some (entry_of 1 (products_of (handle (UpdateProduct 1 keyboard) shop))).
Proof.
  assert (reachable shop) as Hr.
  { unfold shop. repeat apply reachable_request. apply reachable_startup. }
  assert (is_Some (entry_of 1 (products_of shop))) as Hsome.
  { exists mouse. reflexivity. }
  split; [exact Hr|]. split; [exact Hsome|].
  exact (products_are_never_removed (UpdateProduct 1 keyboard) shop 1 Hr Hsome).
Defined.

(** X5. In every reachable state, so also after [update_product] and
    after loading files in any order, [serialize] is strictly ascending
    by id and lists no id twice. *)
Theorem serialize_is_ascending_in_runs (s : State) :
  reachable s →
  ascending (products_of s) ∧ NoDup (id <$> products_of s).
Proof.
  intros [[_ Hasc] _]%reachable_invariant.
  split; [done|]. by apply ascending_NoDup.
Qed.

Lemma serialize_is_ascending_in_runs_witness :
  reachable (startup (Some [keyboard; mouse; keyboard]) None) ∧
  ascending (products_of (startup (Some [keyboard; mouse; keyboard]) None)) ∧
  NoDup (id <$> products_of (startup (Some [keyboard; mouse; keyboard]) None)).
Proof.
  split; [apply reachable_startup|].
  apply (serialize_is_ascending_in_runs
           (startup (Some [keyboard; mouse; keyboard]) None)).
  apply reachable_startup.
Defined.

(** ** Reading, creating, updating and deleting orders *)

Section OrderRequests.
Implicit Types (h : heap) (s : State) (chain : list OrderNode) (oid : Z).

Lemma find_order_doc h chain oid :
  List.find (order_with_id oid) (OrderLinkedList.list_all h chain)
    = (λ i, OrderLinkedList.to_dict h (chain !!! i))
        <$> OrderLinkedList.find_order chain oid.
Proof.
  induction chain as [|c chain IH]; [done|].
  cbn [OrderLinkedList.find_order]. unfold OrderLinkedList.list_all. csimpl.
  unfold order_with_id at 1. simpl.
  destruct (Z.eqb_spec (node_id c) oid); [done|].
  unfold OrderLinkedList.list_all in IH. rewrite IH.
  by destruct (OrderLinkedList.find_order chain oid).
Qed.

Lemma get_order_doc oid s :
  get_order oid s
    = (match List.find (order_with_id oid) (orders_of s) with
       | Some o => Ok o
       | None => Raise (NotFound "Pedido no encontrado")
       end, s).
Proof.
  unfold get_order, orders_of. rewrite find_order_doc.
  by destruct (OrderLinkedList.find_order _ _).
Qed.

Lemma find_order_app chain1 chain2 oid :
  oid ∉ order_ids chain1 →
  OrderLinkedList.find_order (chain1 ++ chain2) oid
    = (λ j, length chain1 + j) <$> OrderLinkedList.find_order chain2 oid.
Proof.
  unfold order_ids. induction chain1 as [|c chain1 IH]; csimpl; intros Hnot.
  - by destruct (OrderLinkedList.find_order chain2 oid).
  - rewrite elem_of_cons in Hnot.
    destruct (Z.eqb_spec (node_id c) oid); [by destruct Hnot; left|].
    rewrite IH by (intros ?; apply Hnot; by right).
    by destruct (OrderLinkedList.find_order chain2 oid).
Qed.

Lemma find_products_resolve h t ids acc ps :
  ascending (ProductBST.serialize h t) →
  resolve (ProductBST.serialize h t) ids = Some ps →
  ∃ found, find_products h t ids acc = Ok (acc ++ found) ∧
           (λ r, h !!! r) <$> found = ps.
Proof.
  intros Hasc. revert acc ps. induction ids as [|k ids IH]; intros acc ps; simpl.
  - intros [= <-]. exists []. by rewrite app_nil_r.
  - pose proof (search_entry h t k Hasc) as Hs.
    destruct (entry_of k (ProductBST.serialize h t)) as [p|] eqn:Hp; [|done].
    destruct (resolve (ProductBST.serialize h t) ids) as [ps'|] eqn:Hps; [|done].
    intros [= <-].
    destruct (ProductBST.search h t k) as [|d l r]; [done|].
    destruct Hs as [_ [= Hd]].
    destruct (IH (acc ++ [d]) ps' eq_refl) as (found & -> & Hfound).
    exists (d :: found). rewrite <-app_assoc. split; [done|].
    csimpl. by rewrite Hfound, Hd.
Qed.

Lemma find_products_raise h t ids acc e :
  find_products h t ids acc = Raise e → status_code e = 404%Z.
Proof.
  revert acc. induction ids as [|k ids IH]; intros acc; simpl; [done|].
  destruct (ProductBST.search h t k); [by intros [= <-]|apply IH].
Qed.

Lemma fmap_alter_insert {A B} (f : A → B) (g : A → A) (l : list A) i x :
  l !! i = Some x → f <$> alter g i l = <[i := f (g x)]> (f <$> l).
Proof.
  revert i. induction l as [|y l IH]; intros [|i]; csimpl; try done.
  - by intros [= ->].
  - intros Hi. f_equal. by apply IH.
Qed.

Lemma filter_alter_same_id h (f : OrderNode → OrderNode) chain i oid :
  (∀ n, node_id (f n) = node_id n) →
  (∀ n, chain !! i = Some n → node_id n = oid) →
  List.filter (λ o, negb (order_with_id oid o))
      (OrderLinkedList.list_all h (alter f i chain))
    = List.filter (λ o, negb (order_with_id oid o)) (OrderLinkedList.list_all h chain).
Proof.
  intros Hf. unfold OrderLinkedList.list_all, order_with_id.
  revert i. induction chain as [|c chain IH]; intros [|i] Hi; csimpl; try done.
  - rewrite Hf, (Hi c eq_refl). by rewrite Z.eqb_refl.
  - destruct (negb _); [f_equal|]; by apply IH.
Qed.

Lemma update_order_others h chain oid st ps :
  List.filter (λ o, negb (order_with_id oid o))
      (OrderLinkedList.list_all h (OrderLinkedList.update_order h chain oid st ps).1)
    = List.filter (λ o, negb (order_with_id oid o)) (OrderLinkedList.list_all h chain).
Proof.
  unfold OrderLinkedList.update_order.
  destruct (OrderLinkedList.find_order chain oid) as [i|] eqn:Hfind; [|done].
  destruct (find_order_Some _ _ _ Hfind) as (n & Hn & Hid). simpl.
  assert (∀ n', chain !! i = Some n' → node_id n' = oid) as Hat by congruence.
  assert (List.filter (λ o, negb (order_with_id oid o))
      (OrderLinkedList.list_all h
        match st with
        | Some s => if truthy_str s then alter (set_status s) i chain else chain
        | None => chain
        end)
    = List.filter (λ o, negb (order_with_id oid o)) (OrderLinkedList.list_all h chain))
    as Hst.
  { destruct st as [s|]; [|done]. destruct (truthy_str s); [|done].
    by apply filter_alter_same_id. }
  destruct ps as [l|]; [|done]. destruct (truthy_list l); [|done].
  rewrite <-Hst. apply filter_alter_same_id; [done|].
  intros n'. destruct st as [s|]; [|apply Hat]. destruct (truthy_str s); [|apply Hat].
  rewrite list_lookup_alter_eq, Hn. by intros [= <-].
Qed.

Lemma delete_order_others h chain oid :
  List.filter (λ o, negb (order_with_id oid o))
      (OrderLinkedList.list_all h (OrderLinkedList.delete_order chain oid).1)
    = List.filter (λ o, negb (order_with_id oid o)) (OrderLinkedList.list_all h chain).
Proof.
  pose proof (delete_order_split chain oid) as Hd.
  destruct (OrderLinkedList.find_order chain oid) as [i|]; [|by rewrite Hd].
  destruct Hd as (before & n & after & -> & _ & Hid & _ & ->). simpl.
  assert (order_with_id oid (OrderLinkedList.to_dict h n) = true) as Hn.
  { unfold order_with_id. simpl. by rewrite Hid, Z.eqb_refl. }
  unfold OrderLinkedList.list_all. rewrite !fmap_app. csimpl.
  rewrite !List.filter_app. cbn [List.filter]. by rewrite Hn.
Qed.
End OrderRequests.

(** X6. [get_order] answers with the first order of the list that has
    the id (as [list_all] lists it), fails with 404 when there is none,
    and leaves the state as it was. *)
Theorem get_order_returns_first (order_id : Z) (s : State) :
  get_order order_id s
    = (match List.find (order_with_id order_id) (orders_of s) with
       | Some o => Ok o
       | None => Raise (NotFound "Pedido no encontrado")
       end, s).
Proof. apply get_order_doc. Qed.

(** X7. A create-order request with a new id whose product ids all
    resolve succeeds: the order holds the documents of the requested ids
    in the order of the request (an id asked twice is held twice), its
    total is their sum and its status is "pending"; it is appended at the
    end of the list, the product index is untouched, both files are
    written, and [get_order] then finds the order. *)
Theorem create_order_success
    (order : OrderInput) (s : State) (ps : list ProductModel) :
  reachable s →
  in_id order ∉ order_ids (order_list s) →
  resolve (products_of s) (in_product_ids order) = Some ps →
  ∃ s',
    create_order order s
      = (Ok {| out_id := in_id order; out_products := ps;
               out_total := sum_values ps; out_status := "pending" |}, s') ∧
    orders_of s'
      = orders_of s ++ [ {| out_id := in_id order; out_products := ps;
                            out_total := sum_values ps; out_status := "pending" |} ] ∧
    products_of s' = products_of s ∧
    products_json s' = Some (products_of s') ∧
    orders_json s' = Some (orders_of s') ∧
    get_order (in_id order) s'
      = (Ok {| out_id := in_id order; out_products := ps;
               out_total := sum_values ps; out_status := "pending" |}, s').
Proof.
  intros [[_ Hasc] _]%reachable_invariant Hnew Hps.
  destruct (find_products_resolve (objects s) (product_tree s)
              (in_product_ids order) [] ps Hasc Hps) as (found & Hfound & Hdocs).
  simpl in Hfound.
  set (new_node := {| node_id := in_id order; node_products := found;
                      node_total := OrderLinkedList.sum_prices (objects s) found;
                      node_status := "pending" |}).
  assert (OrderLinkedList.to_dict (objects s) new_node
          = {| out_id := in_id order; out_products := ps;
               out_total := sum_values ps; out_status := "pending" |}) as Hdoc.
  { unfold OrderLinkedList.to_dict, new_node. simpl.
    by rewrite sum_prices_values, Hdocs. }
  exists (save_data (with_orders (objects s) (order_list s ++ [new_node]) s)).
  split; [|split; [|split; [|split; [|split]]]]; try done.
  - unfold create_order. rewrite (proj2 (find_order_None _ _) Hnew), Hfound. simpl.
    fold new_node. by rewrite list_lookup_total_middle, Hdoc.
  - unfold orders_of. simpl. unfold OrderLinkedList.list_all.
    rewrite fmap_app. simpl. by rewrite Hdoc.
  - unfold get_order. simpl.
    rewrite find_order_app by done. simpl. rewrite Z.eqb_refl. simpl.
    by rewrite Nat.add_0_r, list_lookup_total_middle, Hdoc.
Qed.

Lemma create_order_success_witness :
  reachable shop ∧
  (8%Z ∉ order_ids (order_list shop)) ∧
  resolve (products_of shop) [1; 1; 2]%Z = Some [mouse; mouse; keyboard] ∧
  ∃ s',
    create_order {| in_id := 8; in_product_ids := [1; 1; 2]%Z |} shop
      = (Ok {| out_id := 8; out_products := [mouse; mouse; keyboard];
               out_total := sum_values [mouse; mouse; keyboard];
               out_status := "pending" |}, s') ∧
    orders_of s'
      = orders_of shop
        ++ [ {| out_id := 8; out_products := [mouse; mouse; keyboard];
                out_total := sum_values [mouse; mouse; keyboard];
                out_status := "pending" |} ] ∧
    products_of s' = products_of shop ∧
    products_json s' = Some (products_of s') ∧
    orders_json s' = Some (orders_of s') ∧
    get_order 8 s'
      = (Ok {| out_id := 8; out_products := [mouse; mouse; keyboard];
               out_total := sum_values [mouse; mouse; keyboard];
               out_status := "pending" |}, s').
Proof.
  assert (reachable shop) as Hr.
  { unfold shop. repeat apply reachable_request. apply reachable_startup. }
  assert (8%Z ∉ order_ids (order_list shop)) as Hnew.
  { vm_compute. intros Hin. apply elem_of_cons in Hin as [Hin|Hin]; [discriminate|].
    by apply not_elem_of_nil in Hin. }
  split; [exact Hr|]. split; [exact Hnew|]. split; [reflexivity|].
  exact (create_order_success {| in_id := 8; in_product_ids := [1; 1; 2]%Z |} shop
           [mouse; mouse; keyboard] Hr Hnew eq_refl).
Defined.

(** X8. An update with a non-empty status and a non-empty product list
    whose ids all resolve sets both at once: the first order with the id
    gets the status, the documents of the requested ids and their sum as
    total; its position, every other order and the product index stay,
    and both files are written. *)
Theorem update_order_status_and_products
    (order_id : Z) (new_status : string) (ids : list Z)
    (s : State) (node : nat) (ps : list ProductModel) :
  reachable s →
  OrderLinkedList.find_order (order_list s) order_id = Some node →
  truthy_str new_status = true →
  ids ≠ [] →
  resolve (products_of s) ids = Some ps →
  ∃ s',
    update_order order_id
        {| upd_status := Some new_status; upd_product_ids := Some ids |} s
      = (Ok {| out_id := order_id; out_products := ps;
               out_total := sum_values ps; out_status := new_status |}, s') ∧
    orders_of s'
      = <[node := {| out_id := order_id; out_products := ps;
                     out_total := sum_values ps; out_status := new_status |}]>
          (orders_of s) ∧
    products_of s' = products_of s ∧
    products_json s' = Some (products_of s') ∧
    orders_json s' = Some (orders_of s').
Proof.
  intros [[_ Hasc] _]%reachable_invariant Hfind Hst Hids Hps.
  destruct (find_products_resolve (objects s) (product_tree s) ids [] ps Hasc Hps)
    as (found & Hfound & Hdocs).
  simpl in Hfound.
  pose proof (find_products_truthy _ _ _ _ Hids Hfound) as Htruthy.
  destruct (find_order_Some _ _ _ Hfind) as (n & Hn & Hid).
  set (f := set_products found (OrderLinkedList.sum_prices (objects s) found)
            ∘ set_status new_status).
  assert (OrderLinkedList.to_dict (objects s) (f n)
          = {| out_id := order_id; out_products := ps;
               out_total := sum_values ps; out_status := new_status |}) as Hdoc.
  { unfold OrderLinkedList.to_dict, f. simpl.
    by rewrite sum_prices_values, Hdocs, Hid. }
  exists (save_data (with_orders (objects s) (alter f node (order_list s)) s)).
  split; [|split; [|split; [|split]]]; try done.
  - unfold update_order, OrderLinkedList.update_order.
    cbn [upd_product_ids upd_status].
    destruct ids as [|k ids]; [done|]. cbn [truthy_list].
    rewrite Hfound, Hfind, Hst, Htruthy. cbv zeta.
    rewrite list_alter_alter_eq. fold f.
    rewrite list_lookup_total_alter_eq by (by eapply lookup_lt_Some).
    by rewrite (list_lookup_total_correct _ _ _ Hn), Hdoc.
  - unfold orders_of. simpl. unfold OrderLinkedList.list_all.
    by rewrite (fmap_alter_insert _ _ _ _ n Hn), Hdoc.
Qed.

Lemma update_order_status_and_products_witness :
  reachable shop ∧
  OrderLinkedList.find_order (order_list shop) 7 = Some 0 ∧
  resolve (products_of shop) [1]%Z = Some [mouse] ∧
  ∃ s',
    update_order 7 {| upd_status := Some "shipped";
                      upd_product_ids := Some [1]%Z |} shop
      = (Ok {| out_id := 7; out_products := [mouse];
               out_total := sum_values [mouse]; out_status := "shipped" |}, s') ∧
    orders_of s'
      = <[0 := {| out_id := 7; out_products := [mouse];
                  out_total := sum_values [mouse]; out_status := "shipped" |}]>
          (orders_of shop) ∧
    products_of s' = products_of shop ∧
    products_json s' = Some (products_of s') ∧
    orders_json s' = Some (orders_of s').
Proof.
  assert (reachable shop) as Hr.
  { unfold shop. repeat apply reachable_request. apply reachable_startup. }
  split; [exact Hr|]. split; [reflexivity|]. split; [reflexivity|].
  refine (update_order_status_and_products 7 "shipped" [1%Z] shop 0 [mouse]
            Hr eq_refl eq_refl _ eq_refl).
  discriminate.
Defined.

(** X9. Deleting an order that is in a list with unique ids succeeds:
    one order fewer is listed, the product index is untouched, both files
    are written, [get_order] then fails with 404, and the id is free
    again: a later create-order request with it does not fail with
    Conflict. *)
Theorem delete_order_then_get (order_id : Z) (s : State) :
  NoDup (order_ids (order_list s)) →
  order_id ∈ order_ids (order_list s) →
  ∃ s',
    delete_order order_id s = (Ok "Pedido eliminado correctamente", s') ∧
    S (length (orders_of s')) = length (orders_of s) ∧
    products_of s' = products_of s ∧
    products_json s' = Some (products_of s') ∧
    orders_json s' = Some (orders_of s') ∧
    get_order order_id s' = (Raise (NotFound "Pedido no encontrado"), s') ∧
    ∀ ids, (create_order {| in_id := order_id; in_product_ids := ids |} s').1
             ≠ Raise (Conflict "ID de pedido ya existe").
Proof.
  intros Hnodup Hin.
  pose proof (delete_order_split (order_list s) order_id) as Hd.
  destruct (OrderLinkedList.find_order (order_list s) order_id) as [i|] eqn:Hfind;
    [|by apply find_order_None in Hfind].
  destruct Hd as (before & n & after & Hchain & _ & Hid & Hnot & Hdel).
  assert (OrderLinkedList.find_order (before ++ after) order_id = None) as Hgone.
  { apply find_order_None. rewrite Hchain in Hnodup.
    unfold order_ids in *. rewrite fmap_app in *. simpl in Hnodup.
    apply NoDup_app in Hnodup as (_ & _ & Hafter).
    apply NoDup_cons in Hafter as [Hafter _]. rewrite Hid in Hafter.
    rewrite elem_of_app. tauto. }
  exists (save_data (with_orders (objects s) (before ++ after) s)).
  split; [|split; [|split; [|split; [|split; [|split]]]]]; try done.
  - unfold delete_order. by rewrite Hdel.
  - unfold orders_of. simpl. rewrite Hchain. unfold OrderLinkedList.list_all.
    rewrite !length_fmap, !length_app. simpl. lia.
  - unfold get_order. simpl. by rewrite Hgone.
  - intros ids. unfold create_order. simpl. rewrite Hgone.
    destruct (find_products _ _ _ _) as [found|e] eqn:Hfound; [done|].
    simpl. intros [= ->]. by apply find_products_raise in Hfound.
Qed.

Lemma delete_order_then_get_witness :
  NoDup (order_ids (order_list shop)) ∧
  7%Z ∈ order_ids (order_list shop) ∧
  ∃ s',
    delete_order 7 shop = (Ok "Pedido eliminado correctamente", s') ∧
    S (length (orders_of s')) = length (orders_of shop) ∧
    products_of s' = products_of shop ∧
    products_json s' = Some (products_of s') ∧
    orders_json s' = Some (orders_of s') ∧
    get_order 7 s' = (Raise (NotFound "Pedido no encontrado"), s') ∧
    ∀ ids, (create_order {| in_id := 7; in_product_ids := ids |} s').1
             ≠ Raise (Conflict "ID de pedido ya existe").
Proof.
  assert (NoDup (order_ids (order_list shop))) as Hnodup.
  { vm_compute. apply NoDup_singleton. }
  assert (7%Z ∈ order_ids (order_list shop)) as Hin.
  { vm_compute. apply elem_of_cons. by left. }
  split; [exact Hnodup|]. split; [exact Hin|].
  exact (delete_order_then_get 7 shop Hnodup Hin).
Defined.

(** X10. An update or a delete of the orders with one id leaves every
    order with another id as it was, and in the same order. *)
Theorem other_orders_untouched (order_id : Z) (update : OrderUpdate) (s : State) :
  List.filter (λ o, negb (order_with_id order_id o))
      (orders_of (handle (UpdateOrder order_id update) s))
    = List.filter (λ o, negb (order_with_id order_id o)) (orders_of s) ∧
  List.filter (λ o, negb (order_with_id order_id o))
      (orders_of (handle (DeleteOrder order_id) s))
    = List.filter (λ o, negb (order_with_id order_id o)) (orders_of s).
Proof.
  split; simpl.
  - unfold update_order.
    assert (∀ ps,
      let r := (let '(chain, node) :=
         OrderLinkedList.update_order (objects s) (order_list s) order_id
           (upd_status update) ps in
       match node with
       | None => (Raise (NotFound "Pedido no encontrado"),
                  with_orders (objects s) chain s)
       | Some node =>
           (Ok (OrderLinkedList.to_dict (objects s) (chain !!! node)),
            save_data (with_orders (objects s) chain s))
       end) in
      List.filter (λ o, negb (order_with_id order_id o)) (orders_of r.2)
        = List.filter (λ o, negb (order_with_id order_id o)) (orders_of s)) as Hstep.
    { intros ps. simpl.
      pose proof (update_order_others (objects s) (order_list s) order_id
                    (upd_status update) ps) as Hothers.
      by destruct (OrderLinkedList.update_order _ _ _ _ _) as [chain [node|]]. }
    destruct (upd_product_ids update) as [ids|]; [|apply Hstep].
    destruct (truthy_list ids); [|apply Hstep].
    destruct (find_products _ _ _ _); [apply Hstep|done].
  - unfold delete_order.
    pose proof (delete_order_others (objects s) (order_list s) order_id) as Hothers.
    by destruct (OrderLinkedList.delete_order _ _) as [chain []].
Qed.

(** X11. [delete_order] removes the first record with the id and no
    other: when a later record has the same id (a list loaded from a file
    with a repeated id), [find_order] afterwards returns that record. *)
Theorem delete_order_removes_first_only
    (before after : list OrderNode) (node : OrderNode) (order_id : Z) :
  order_id ∉ order_ids before →
  node_id node = order_id →
  OrderLinkedList.delete_order (before ++ node :: after) order_id
    = (before ++ after, true) ∧
  OrderLinkedList.find_order (before ++ after) order_id
    = (λ j, length before + j) <$> OrderLinkedList.find_order after order_id.
Proof.
  intros Hnot Hid. split; [|by apply find_order_app].
  pose proof (delete_order_split (before ++ node :: after) order_id) as Hd.
  rewrite find_order_app in Hd by done. simpl in Hd.
  rewrite (proj2 (Z.eqb_eq _ _) Hid) in Hd. simpl in Hd.
  destruct Hd as (before' & n' & after' & Heq & Hlen & _ & _ & ->).
  rewrite Nat.add_0_r in Hlen.
  apply app_inj_1 in Heq as [<- [= _ <-]]; done.
Qed.

Lemma delete_order_removes_first_only_witness :
  (7%Z ∉ order_ids []) ∧
  node_id (order_list
    (startup None (Some (orders_of shop ++ orders_of shop))) !!! 0) = 7%Z ∧
  OrderLinkedList.delete_order
      (order_list (startup None (Some (orders_of shop ++ orders_of shop)))) 7
    = (drop 1 (order_list (startup None (Some (orders_of shop ++ orders_of shop)))),
       true) ∧
  OrderLinkedList.find_order
      (drop 1 (order_list (startup None (Some (orders_of shop ++ orders_of shop)))))
      7
    = Some 0.
Proof.
  assert (7%Z ∉ order_ids []) as Hnot by apply not_elem_of_nil.
  split; [exact Hnot|]. split; [reflexivity|].
  exact (delete_order_removes_first_only []
           (drop 1 (order_list (startup None (Some (orders_of shop ++ orders_of shop)))))
           (order_list (startup None (Some (orders_of shop ++ orders_of shop))) !!! 0)
           7 Hnot eq_refl).
Defined.

(** ** Loading files *)

(** The two files hold what the state holds. *)
Definition written (s : State) : Prop :=
  products_json s = Some (products_of s) ∧ orders_json s = Some (orders_of s).

(** The files mirror the stores: both absent and the stores empty, or both
    written from the stores as they are. *)
Definition in_sync (s : State) : Prop :=
  (products_json s = None ∧ orders_json s = None ∧
   products_of s = [] ∧ orders_of s = []) ∨
  written s.

Section Loading.
Implicit Types (s : State).

Lemma load_orders_tree data s :
  product_tree (foldl load_order s data) = product_tree s.
Proof.
  revert s. induction data as [|o data IH]; intros s; simpl; [done|].
  by rewrite IH.
Qed.

Lemma startup_documents products orders :
  products_of (startup products orders)
    = foldl (λ acc p, upsert p acc) [] (default [] products) ∧
  orders_of (startup products orders) = recomputed <$> default [] orders ∧
  products_json (startup products orders) = products ∧
  orders_json (startup products orders) = orders.
Proof.
  unfold startup, load_data.
  set (s0 := fresh products orders).
  set (s1 := match products_json s0 with
             | Some data => foldl load_product s0 data
             | None => s0
             end).
  assert (invariant s0) as Hinv0 by (split; [split|]; constructor).
  assert (invariant s1 ∧ order_list s1 = [] ∧
          products_of s1 = foldl (λ acc p, upsert p acc) [] (default [] products) ∧
          products_json s1 = products ∧ orders_json s1 = orders)
    as (Hinv1 & Hlist & Hprod & Hp & Ho).
  { subst s1 s0. simpl. destruct products as [data|]; [|done].
    destruct (load_products_frame data (fresh (Some data) orders)) as [-> ->].
    rewrite load_products_files.
    destruct (load_products_serialize data (fresh (Some data) orders))
      as (_ & _ & ->); [constructor|constructor|].
    split; [|done]. apply foldl_invariant; [apply load_product_invariant|done]. }
  rewrite Ho. destruct orders as [data|]; simpl.
  - destruct (load_orders_result data s1 Hinv1) as [-> ->].
    destruct (load_orders_ids data s1) as (_ & -> & ->).
    unfold orders_of at 1. by rewrite Hlist.
  - unfold orders_of. by rewrite Hlist.
Qed.

Lemma ins_spine h refs d :
  Forall (λ r, (ProductBST.key h r < ProductBST.key h d)%Z) refs →
  ins h (right_spine refs) d = right_spine (refs ++ [d]).
Proof.
  induction 1 as [|r refs Hr _ IH]; simpl; [done|].
  destruct (Z.ltb_spec (ProductBST.key h d) (ProductBST.key h r)); [lia|].
  destruct (Z.gtb_spec (ProductBST.key h d) (ProductBST.key h r)); [|lia].
  by rewrite IH.
Qed.

Lemma load_products_spine ps s0 :
  objects s0 = [] → product_tree s0 = NoNode →
  ascending ps →
  objects (foldl load_product s0 ps) = ps ∧
  product_tree (foldl load_product s0 ps) = right_spine (seq 0 (length ps)).
Proof.
  intros Hobj Htree. induction ps as [|p ps IH] using rev_ind; [done|].
  intros [Hasc Hlt]%ascending_snoc. destruct (IH Hasc) as [Hps Hspine].
  rewrite foldl_snoc. unfold load_product at 1 3. simpl.
  rewrite Hps, Hspine, insert_ins. split; [done|].
  rewrite ins_spine.
  - by rewrite length_app, Nat.add_1_r, seq_S.
  - apply Forall_seq. intros r [_ Hr]. unfold ProductBST.key.
    rewrite lookup_total_app_l by done.
    rewrite lookup_total_app_r, Nat.sub_diag by done. simpl.
    rewrite Forall_forall in Hlt. apply Hlt.
    by apply list_elem_of_lookup_total_2.
Qed.
End Loading.

(** X12. What a start makes of the two files, whatever they hold: the
    index lists the products of the file by ascending id, the last of
    several with one id winning; the list holds the orders of the file in
    file order with their ids, products and statuses, each total summed
    again from the products; repeated order ids are loaded as they are; a
    missing file gives an empty store; and neither file is touched. *)
Theorem startup_from_files
    (products : option (list ProductModel)) (orders : option (list OrderOutput)) :
  products_of (startup products orders)
    = foldl (λ acc p, upsert p acc) [] (default [] products) ∧
  orders_of (startup products orders) = recomputed <$> default [] orders ∧
  products_json (startup products orders) = products ∧
  orders_json (startup products orders) = orders.
Proof. apply startup_documents. Qed.

(** X13. Loading a products file that is ascending by id, as every file
    that [save_data] wrote is, builds a tree without any left child: a
    chain through the right children, in file order. *)
Theorem loaded_tree_is_a_chain
    (products : list ProductModel) (orders : option (list OrderOutput)) :
  ascending products →
  product_tree (startup (Some products) orders)
    = right_spine (seq 0 (length products)).
Proof.
  intros Hasc. unfold startup, load_data. simpl.
  destruct (load_products_spine products (fresh (Some products) orders))
    as [_ Hspine]; try done.
  destruct (orders_json _); [|done]. by rewrite load_orders_tree.
Qed.

Lemma loaded_tree_is_a_chain_witness :
  ascending (products_of shop) ∧
  product_tree (startup (Some (products_of shop)) None)
    = right_spine (seq 0 (length (products_of shop))).
Proof.
  assert (ascending (products_of shop)) as Hasc.
  { vm_compute. repeat constructor. }
  split; [exact Hasc|].
  exact (loaded_tree_is_a_chain (products_of shop) None Hasc).
Defined.

(** ** What a request leaves behind *)

Section Outcomes.
Implicit Types (s : State) (req : Request).

Lemma handle_outcome req s :
  match raised req s with
  | Some e => handle req s = s ∧ (status_code e = 400%Z ∨ status_code e = 404%Z)
  | None => if mutating req then written (handle req s) else handle req s = s
  end.
Proof.
  destruct req; simpl.
  - unfold create_product. destruct (ProductBST.search _ _ _); simpl; [done|].
    split; [done|by left].
  - unfold get_product. destruct (ProductBST.search _ _ _); simpl; [|done].
    split; [done|by right].
  - unfold update_product. destruct (ProductBST.search _ _ _); simpl.
    + split; [done|by right].
    + destruct (negb _); simpl; [|done]. split; [done|by left].
  - unfold create_order. destruct (OrderLinkedList.find_order _ _); simpl.
    + split; [done|by left].
    + destruct (find_products _ _ _ _) as [found|e] eqn:Hfound; simpl; [done|].
      split; [done|]. right. by eapply find_products_raise.
  - unfold get_order. destruct (OrderLinkedList.find_order _ _); simpl; [done|].
    split; [done|by right].
  - unfold update_order.
    assert (∀ ps,
      let r := (let '(chain, node) :=
         OrderLinkedList.update_order (objects s) (order_list s) order_id
           (upd_status update) ps in
       match node with
       | None => (Raise (NotFound "Pedido no encontrado"),
                  with_orders (objects s) chain s)
       | Some node =>
           (Ok (OrderLinkedList.to_dict (objects s) (chain !!! node)),
            save_data (with_orders (objects s) chain s))
       end) in
      match error_of r.1 with
      | Some e => r.2 = s ∧ (status_code e = 400%Z ∨ status_code e = 404%Z)
      | None => written r.2
      end) as Hstep.
    { intros ps. unfold OrderLinkedList.update_order.
      destruct (OrderLinkedList.find_order _ _); simpl; [done|].
      split; [apply with_orders_same|by right]. }
    destruct (upd_product_ids update) as [ids|]; [|apply Hstep].
    destruct (truthy_list ids); [|apply Hstep].
    destruct (find_products _ _ _ _) as [found|e] eqn:Hfound; [apply Hstep|].
    simpl. split; [done|]. right. by eapply find_products_raise.
  - unfold delete_order.
    pose proof (delete_order_split (order_list s) order_id) as Hd.
    destruct (OrderLinkedList.find_order _ _) as [i|].
    + destruct Hd as (before & n & after & _ & _ & _ & _ & ->). done.
    + rewrite Hd. simpl. split; [apply with_orders_same|by right].
  - done.
Qed.

Lemma next_start_same s :
  invariant s → in_sync s →
  products_of (startup (products_json s) (orders_json s)) = products_of s ∧
  orders_of (startup (products_json s) (orders_json s)) = orders_of s ∧
  in_sync (startup (products_json s) (orders_json s)).
Proof.
  intros [[_ Hasc] Hord] Hsync.
  destruct (startup_documents (products_json s) (orders_json s))
    as (Hp & Ho & Hpj & Hoj).
  assert (products_of (startup (products_json s) (orders_json s)) = products_of s ∧
          orders_of (startup (products_json s) (orders_json s)) = orders_of s)
    as [Hp' Ho'].
  { rewrite Hp, Ho. destruct Hsync as [(-> & -> & -> & ->)|[-> ->]]; [done|].
    simpl. split; [by apply foldl_upsert_ascending|].
    unfold orders_of, OrderLinkedList.list_all. rewrite <-list_fmap_compose.
    apply Forall_fmap_ext. eapply Forall_impl; [exact Hord|].
    intros n Hn. by apply recomputed_to_dict. }
  split; [done|]. split; [done|].
  unfold in_sync, written. rewrite Hpj, Hoj, Hp', Ho'. exact Hsync.
Qed.

Lemma own_run_in_sync s : own_run s → in_sync s.
Proof.
  induction 1 as [|s req Hrun IH|s Hrun IH].
  - left. done.
  - pose proof (handle_outcome req s) as Hout.
    destruct (raised req s) as [e|].
    + destruct Hout as [-> _]. done.
    + destruct (mutating req); [by right|by rewrite Hout].
  - apply next_start_same; [|done].
    by apply reachable_invariant, own_run_reachable.
Qed.
End Outcomes.

(** X14. In the runs of a service that starts without files and loads
    only what it saved, the files always mirror the stores (both absent
    while nothing was ever stored), so a new start at any moment brings
    back the same products and the same orders. *)
Theorem files_mirror_the_stores (s : State) :
  own_run s →
  in_sync s ∧
  products_of (startup (products_json s) (orders_json s)) = products_of s ∧
  orders_of (startup (products_json s) (orders_json s)) = orders_of s.
Proof.
  intros Hrun. pose proof (own_run_in_sync s Hrun) as Hsync.
  destruct (next_start_same s) as (Hp & Ho & _); [|done|done].
  by apply reachable_invariant, own_run_reachable.
Qed.

Lemma files_mirror_the_stores_witness :
  own_run shop ∧
  in_sync shop ∧
  products_of (startup (products_json shop) (orders_json shop)) = products_of shop ∧
  orders_of (startup (products_json shop) (orders_json shop)) = orders_of shop.
Proof.
  split.
  - unfold shop. repeat apply own_request. apply own_first_start.
  - apply (files_mirror_the_stores shop).
    unfold shop. repeat apply own_request. apply own_first_start.
Defined.

(** X15. Every request that raises, raises 400 or 404 and leaves the
    object store, the index, the list and both files exactly as they
    were: no handler fails half way. *)
Theorem failed_requests_change_nothing
    (req : Request) (s : State) (e : HTTPException) :
  raised req s = Some e →
  handle req s = s ∧ (status_code e = 400%Z ∨ status_code e = 404%Z).
Proof.
  intros Hraised. pose proof (handle_outcome req s) as Hout.
  by rewrite Hraised in Hout.
Qed.

Lemma failed_requests_change_nothing_witness :
  raised (CreateProduct keyboard) shop
    = Some (Conflict "Producto con ese ID ya existe") ∧
  handle (CreateProduct keyboard) shop = shop ∧
  (status_code (Conflict "Producto con ese ID ya existe") = 400%Z ∨
   status_code (Conflict "Producto con ese ID ya existe") = 404%Z).
Proof.
  split; [reflexivity|].
  exact (failed_requests_change_nothing (CreateProduct keyboard) shop
           (Conflict "Producto con ese ID ya existe") eq_refl).
Defined.

(** X16. Every POST, PUT or DELETE request that succeeds ends with both
    files written from the stores as the request left them; every GET
    request that succeeds leaves the state as it was. *)
Theorem successful_requests_are_saved (req : Request) (s : State) :
  raised req s = None →
  if mutating req then written (handle req s) else handle req s = s.
Proof.
  intros Hraised. pose proof (handle_outcome req s) as Hout.
  by rewrite Hraised in Hout.
Qed.

Lemma successful_requests_are_saved_witness :
  raised (DeleteOrder 7) shop = None ∧
  written (handle (DeleteOrder 7) shop).
Proof.
  split; [reflexivity|].
  exact (successful_requests_are_saved (DeleteOrder 7) shop eq_refl).
Defined.

(** ** Edge cases of the order update *)

(** X17. An update-order request that names a product id without an
    entry fails with that product's 404 and changes nothing, whatever the
    status it carries and whether or not the order exists: products are
    resolved before the order is looked up. *)
Theorem update_order_missing_product
    (order_id : Z) (new_status : option string) (ids : list Z) (s : State) :
  reachable s →
  (∃ k, k ∈ ids ∧ entry_of k (products_of s) = None) →
  ∃ k, k ∈ ids ∧ entry_of k (products_of s) = None ∧
       update_order order_id
           {| upd_status := new_status; upd_product_ids := Some ids |} s
         = (Raise (NotFound ("Producto ID " +:+ pretty k +:+ " no encontrado")), s).
Proof.
  intros [[_ Hasc] _]%reachable_invariant Hmissing.
  destruct (find_products_missing (objects s) (product_tree s) ids [] Hasc Hmissing)
    as (k & Hin & Hnone & Hraise).
  exists k. repeat split; try done.
  unfold update_order. cbn [upd_product_ids].
  destruct ids as [|k0 ids]; [by apply not_elem_of_nil in Hin|].
  cbn [truthy_list]. by rewrite Hraise.
Qed.

Lemma update_order_missing_product_witness :
  reachable shop ∧
  (∃ k, k ∈ [9]%Z ∧ entry_of k (products_of shop) = None) ∧
  ∃ k, k ∈ [9]%Z ∧ entry_of k (products_of shop) = None ∧
       update_order 8 {| upd_status := Some "shipped";
                         upd_product_ids := Some [9]%Z |} shop
         = (Raise (NotFound ("Producto ID " +:+ pretty k +:+ " no encontrado")), shop).
Proof.
  assert (reachable shop) as Hr.
  { unfold shop. repeat apply reachable_request. apply reachable_startup. }
  assert (∃ k, k ∈ [9]%Z ∧ entry_of k (products_of shop) = None) as Hmissing.
  { exists 9%Z. split; [|reflexivity]. apply elem_of_cons. by left. }
  split; [exact Hr|]. split; [exact Hmissing|].
  exact (update_order_missing_product 8 (Some "shipped") [9%Z] shop Hr Hmissing).
Defined.

(** X18. An update of an existing order that carries no status or the
    empty string, and no product list or the empty list, changes no store
    and still succeeds: it answers with the order as [get_order] gives
    it, and writes both files. *)
Theorem update_order_without_effect
    (order_id : Z) (update : OrderUpdate) (s : State) :
  order_id ∈ order_ids (order_list s) →
  upd_status update = None ∨ upd_status update = Some "" →
  upd_product_ids update = None ∨ upd_product_ids update = Some [] →
  update_order order_id update s = ((get_order order_id s).1, save_data s).
Proof.
  intros Hin Hst Hids.
  unfold update_order, get_order, OrderLinkedList.update_order.
  destruct (OrderLinkedList.find_order (order_list s) order_id) as [node|] eqn:Hfind;
    [|by apply find_order_None in Hfind].
  destruct Hst as [->| ->], Hids as [->| ->]; simpl;
    by rewrite with_orders_same.
Qed.

Lemma update_order_without_effect_witness :
  7%Z ∈ order_ids (order_list shop) ∧
  update_order 7 {| upd_status := Some ""; upd_product_ids := Some [] |} shop
    = ((get_order 7 shop).1, save_data shop).
Proof.
  assert (7%Z ∈ order_ids (order_list shop)) as Hin.
  { vm_compute. apply elem_of_cons. by left. }
  split; [exact Hin|].
  exact (update_order_without_effect 7
           {| upd_status := Some ""; upd_product_ids := Some [] |} shop Hin
           (or_intror eq_refl) (or_intror eq_refl)).
Defined.
